(** * Budget-constrained stock allocation: a model of
      [BudgetOptimizedMarketAssistant] (upgraded_stock_market_bot.py)

    The development embeds [get_budget_optimized_stocks], [optimize_portfolio]
    and the affordability filter of [process_query], and checks the
    allocator's contract against them.

    The code is modelled twice.  The value-level model works on the values
    of the dicts and lists; it carries the algorithmic properties.  The
    store-level model ([Store]) runs the same statements over a heap of
    Python objects with identity, allocation and in-place update; it
    carries the properties about effects.  The lemmas [optimize_portfolio_run]
    and [rank_single_run] show that a store-level run computes the
    value-level function.

    Numbers.  Python floats are idealised as exact rationals ([Q]): every
    arithmetic operation is exact, [int()] truncates toward zero, and true
    division by zero raises [ZeroDivisionError].  Rounding, infinities and
    NaN are outside the model. *)

From Stdlib Require Import QArith Qround Lqa ZArith Lia Sorted Permutation.
From stdpp Require Import base option list strings gmap.

Set Default Proof Using "Type".

(** ** Exceptions and fallible computations *)

Inductive exn : Type :=
  | ZeroDivisionError
  | KeyError
  | TypeError.

Inductive result (A : Type) : Type :=
  | Ok (a : A)
  | Raise (e : exn).
Arguments Ok {A} a.
Arguments Raise {A} e.

#[global] Instance result_ret : MRet result := fun A a => Ok a.
#[global] Instance result_bind : MBind result := fun A B f r =>
  match r with
  | Ok a => f a
  | Raise e => Raise e
  end.

(** A [for] loop that threads a state and stops at the first exception. *)
Fixpoint foldM {S A : Type} (body : S → A → result S) (s : S) (l : list A)
  : result S :=
  match l with
  | [] => Ok s
  | x :: l' => s' ← body s x; foldM body s' l'
  end.

(** Calls [f] on every element, left to right, stopping at the first
    exception. *)
Fixpoint traverse {A B : Type} (f : A → result B) (l : list A)
  : result (list B) :=
  match l with
  | [] => Ok []
  | x :: l' => y ← f x; ys ← traverse f l'; mret (y :: ys)
  end.

(** ** Python arithmetic *)

(** [a / b] on floats.  (On numpy scalars, which the scorer delivers, a
    zero divisor yields an infinity or a NaN and it is the following
    [int()] that raises; the model follows the builtin floats.) *)
Definition truediv (a b : Q) : result Q :=
  if Qeq_bool b 0 then Raise ZeroDivisionError else Ok (a / b)%Q.

(** [int(q)]: truncation toward zero. *)
Definition py_int (q : Q) : Z := Z.quot (Qnum q) (Z.pos (Qden q)).

(** [a < b] on floats, the only comparison [list.sort] uses. *)
Definition Qlt_bool (a b : Q) : bool := negb (Qle_bool b a).

(** ** The builtin [sorted(iterable, key=..., reverse=...)]

    [sorted] calls [key] once per element, in order, and sorts the
    decorated list with a stable sort that compares keys with [<] only.
    With [reverse=True] the list is reversed, sorted stably in ascending
    order and reversed again, which keeps elements with equal keys in their
    original order.  The stable sort itself is modelled by insertion. *)

Section Sorted.
Context {A : Type}.

Fixpoint insort (k : Q) (x : A) (l : list (Q * A)) : list (Q * A) :=
  match l with
  | [] => [(k, x)]
  | (k', y) :: t =>
      if Qlt_bool k' k then (k', y) :: insort k x t else (k, x) :: l
  end.

Definition list_sort (l : list (Q * A)) : list (Q * A) :=
  foldr (λ kx acc, insort kx.1 kx.2 acc) [] l.

Definition sorted (l : list A) (key : A → result Q) (reverse : bool)
  : result (list A) :=
  keys ← traverse key l;
  let decorated := zip keys l in
  let decorated := if reverse then rev decorated else decorated in
  let decorated := list_sort decorated in
  let decorated := if reverse then rev decorated else decorated in
  mret (decorated.*2).
End Sorted.

(** ** Data model *)

(** The dict returned by [analyze_stock], restricted to the keys the
    allocator reads, plus the three keys [get_budget_optimized_stocks]
    adds to it. *)
Record stock : Type := mkStock {
  symbol : string;
  current_price : Q;
  future_potential : Q;
  possible_shares : option Z;
  total_cost : option Q;
  potential_profit : option Q
}.

(** A freshly analysed stock. *)
Definition analysis (sym : string) (price potential : Q) : stock :=
  mkStock sym price potential None None None.

(** The dict built for one line of the portfolio. *)
Record allocation : Type := mkAllocation {
  line_symbol : string;
  shares : Z;
  cost : Q;
  potential_return : Q
}.

(** ** [optimize_portfolio] *)

(** [lambda x: x['future_potential'] / x['current_price']] *)
Definition efficiency_key (x : stock) : result Q :=
  truediv (future_potential x) (current_price x).

(** One iteration of the [for stock in stocks_by_efficiency] loop; the state
    is [(portfolio, remaining_budget)]. *)
Definition allocate (st : list allocation * Q) (stock : stock)
  : result (list allocation * Q) :=
  let '(portfolio, remaining_budget) := st in
  if Qle_bool (current_price stock) remaining_budget then
    q ← truediv remaining_budget (current_price stock);
    let possible_shares := py_int q in
    if (0 <? possible_shares)%Z then
      let stock_allocation :=
        {| line_symbol := symbol stock;
           shares := possible_shares;
           cost := inject_Z possible_shares * current_price stock;
           potential_return :=
             inject_Z possible_shares * current_price stock
             * future_potential stock / 100 |}%Q in
      mret (portfolio ++ [stock_allocation],
            (remaining_budget - cost stock_allocation)%Q)
    else mret (portfolio, remaining_budget)
  else mret (portfolio, remaining_budget).

Definition optimize_portfolio (stocks : list stock) (budget : Q)
  : result (list allocation) :=
  stocks_by_efficiency ← sorted stocks efficiency_key true;
  st ← foldM allocate ([], budget) stocks_by_efficiency;
  mret st.1.

(** ** [get_budget_optimized_stocks]

    [company_map] is the assistant's name-to-symbol dict in insertion order
    and [analyze_stock] the external scorer ([None] when no data could be
    fetched or analysed). *)

Section Assistant.
Variable company_map : list (string * string).
Variable analyze_stock : string → string → option stock.

(** One iteration of the [for symbol in self.company_map.values()] loop;
    the state is [all_stocks]. *)
Definition consider (budget : Q) (period : string)
    (all_stocks : list stock) (sym : string) : result (list stock) :=
  match analyze_stock sym period with
  | Some analysis =>
      q ← truediv budget (current_price analysis);
      let max_shares := py_int q in
      if (0 <? max_shares)%Z then
        let total := (inject_Z max_shares * current_price analysis)%Q in
        let analysis :=
          {| symbol := symbol analysis;
             current_price := current_price analysis;
             future_potential := future_potential analysis;
             possible_shares := Some max_shares;
             total_cost := Some total;
             potential_profit :=
               Some (total * (future_potential analysis / 100))%Q |} in
        mret (all_stocks ++ [analysis])
      else mret all_stocks
  | None => mret all_stocks
  end.

Definition get_budget_optimized_stocks (budget : Q) (period : string)
  : result (list stock * list allocation) :=
  all_stocks ← foldM (consider budget period) [] (company_map.*2);
  single_stock ← sorted all_stocks (λ x, Ok (future_potential x)) true;
  multi_stock_combo ← optimize_portfolio all_stocks budget;
  mret (single_stock, multi_stock_combo).

(** The list comprehension of [process_query] that keeps the stocks of
    [single_stocks] whose price is within the budget. *)
Definition affordable_stocks (single_stocks : list stock) (budget : Q)
  : list stock :=
  List.filter (λ stock, Qle_bool (current_price stock) budget) single_stocks.

(** The single-asset ranking: [single_stock] as returned by
    [get_budget_optimized_stocks], filtered by [process_query].  (When both
    returned lists are empty [process_query] answers before it filters; the
    filter of an empty list is empty all the same.) *)
Definition rank_single (budget : Q) (period : string) : result (list stock) :=
  r ← get_budget_optimized_stocks budget period;
  mret (affordable_stocks r.1 budget).

(** The scored assets the assistant works on: the successful analyses, in
    [company_map] order. *)
Definition universe (period : string) : list stock :=
  omap (λ sym, analyze_stock sym period) (company_map.*2).
End Assistant.

(** ** The same code over an object store

    Lists and dicts are Python objects: a list holds references, a dict is
    mutated in place and [sorted] and the list comprehension allocate new
    lists.  [Store] runs the two methods over a heap of such objects. *)

Definition loc : Type := positive.

Inductive object : Type :=
  | StockDict (d : stock)
  | AllocationDict (d : allocation)
  | PyList (items : list loc).

(** A computation that may update the heap and raise. *)
Definition Py (A : Type) : Type := gmap loc object → gmap loc object * result A.

#[global] Instance Py_ret : MRet Py := λ A a h, (h, Ok a).
#[global] Instance Py_bind : MBind Py := λ A B f m h,
  match m h with
  | (h', Ok a) => f a h'
  | (h', Raise e) => (h', Raise e)
  end.

Module Store.
(** A computation that does not touch the heap. *)
Definition lift {A : Type} (r : result A) : Py A := λ h, (h, r).

(** Object creation: the new object gets an address not in use. *)
Definition new (o : object) : Py loc :=
  λ h, let l := fresh (dom h) in (<[l:=o]> h, Ok l).

(** In-place update of the object at [l]. *)
Definition store (l : loc) (o : object) : Py unit :=
  λ h, (<[l:=o]> h, Ok tt).

(** Reading through a reference; a reference to an object of another kind
    is a [TypeError]. *)
Definition load_stock (l : loc) : Py stock :=
  λ h, match h !! l with
       | Some (StockDict d) => (h, Ok d)
       | _ => (h, Raise TypeError)
       end.

Definition load_list (l : loc) : Py (list loc) :=
  λ h, match h !! l with
       | Some (PyList items) => (h, Ok items)
       | _ => (h, Raise TypeError)
       end.

(** [lst.append(x)] *)
Definition append (lst x : loc) : Py unit :=
  items ← load_list lst; store lst (PyList (items ++ [x])).

(** [d[key] = v] for the keys that are assigned *)
Definition set_possible_shares (v : Z) (d : stock) : stock :=
  mkStock (symbol d) (current_price d) (future_potential d)
    (Some v) (total_cost d) (potential_profit d).
Definition set_total_cost (v : Q) (d : stock) : stock :=
  mkStock (symbol d) (current_price d) (future_potential d)
    (possible_shares d) (Some v) (potential_profit d).
Definition set_potential_profit (v : Q) (d : stock) : stock :=
  mkStock (symbol d) (current_price d) (future_potential d)
    (possible_shares d) (total_cost d) (Some v).

Definition modify_stock (l : loc) (f : stock → stock) : Py unit :=
  d ← load_stock l; store l (StockDict (f d)).

Fixpoint foldM {S A : Type} (body : S → A → Py S) (s : S) (l : list A) : Py S :=
  match l with
  | [] => mret s
  | x :: l' => s' ← body s x; foldM body s' l'
  end.

Fixpoint traverse {A B : Type} (f : A → Py B) (l : list A) : Py (list B) :=
  match l with
  | [] => mret []
  | x :: l' => y ← f x; ys ← traverse f l'; mret (y :: ys)
  end.

(** [sorted] copies the iterable into a new list and sorts that list. *)
Definition sorted (iterable : loc) (key : loc → Py Q) (reverse : bool) : Py loc :=
  items ← load_list iterable;
  copy ← new (PyList items);
  keys ← traverse key items;
  let decorated := zip keys items in
  let decorated := if reverse then rev decorated else decorated in
  let decorated := list_sort decorated in
  let decorated := if reverse then rev decorated else decorated in
  store copy (PyList (decorated.*2));;
  mret copy.

(** The body of the loop of [optimize_portfolio]; the state is
    [remaining_budget], [portfolio] is the list being filled. *)
Definition allocate (portfolio : loc) (remaining_budget : Q) (x : loc) : Py Q :=
  stock ← load_stock x;
  if Qle_bool (current_price stock) remaining_budget then
    q ← lift (truediv remaining_budget (current_price stock));
    let possible_shares := py_int q in
    if (0 <? possible_shares)%Z then
      let line :=
        {| line_symbol := symbol stock;
           shares := possible_shares;
           cost := inject_Z possible_shares * current_price stock;
           potential_return :=
             inject_Z possible_shares * current_price stock
             * future_potential stock / 100 |}%Q in
      stock_allocation ← new (AllocationDict line);
      append portfolio stock_allocation;;
      mret (remaining_budget - cost line)%Q
    else mret remaining_budget
  else mret remaining_budget.

(** The loop iterates over [stocks_by_efficiency], which nothing modifies
    while it runs: its items are read once. *)
Definition optimize_portfolio (stocks : loc) (budget : Q) : Py loc :=
  portfolio ← new (PyList []);
  stocks_by_efficiency ←
    sorted stocks (λ x, d ← load_stock x; lift (efficiency_key d)) true;
  order ← load_list stocks_by_efficiency;
  foldM (allocate portfolio) budget order;;
  mret portfolio.

Section Assistant.
Variable company_map : list (string * string).
Variable analyze_stock : string → string → option stock.

(** [analyze_stock] hands out a new dict. *)
Definition call_analyze_stock (sym period : string) : Py (option loc) :=
  match analyze_stock sym period with
  | Some d => l ← new (StockDict d); mret (Some l)
  | None => mret None
  end.

Definition consider (budget : Q) (period : string) (all_stocks : loc)
    (_ : unit) (sym : string) : Py unit :=
  r ← call_analyze_stock sym period;
  match r with
  | Some analysis =>
      d ← load_stock analysis;
      q ← lift (truediv budget (current_price d));
      let max_shares := py_int q in
      if (0 <? max_shares)%Z then
        modify_stock analysis (set_possible_shares max_shares);;
        d ← load_stock analysis;
        modify_stock analysis
          (set_total_cost (inject_Z max_shares * current_price d)%Q);;
        d ← load_stock analysis;
        total ← lift (match total_cost d with
                      | Some t => Ok t
                      | None => Raise KeyError
                      end);
        modify_stock analysis
          (set_potential_profit (total * (future_potential d / 100))%Q);;
        append all_stocks analysis
      else mret ()
  | None => mret ()
  end.

Definition get_budget_optimized_stocks (budget : Q) (period : string)
  : Py (loc * loc) :=
  all_stocks ← new (PyList []);
  foldM (consider budget period all_stocks) () (company_map.*2);;
  single_stock ←
    sorted all_stocks (λ x, d ← load_stock x; mret (future_potential d)) true;
  multi_stock_combo ← optimize_portfolio all_stocks budget;
  mret (single_stock, multi_stock_combo).

(** [[stock for stock in single_stocks if stock['current_price'] <= budget]] *)
Definition affordable_stocks (single_stocks : loc) (budget : Q) : Py loc :=
  items ← load_list single_stocks;
  kept ← foldM (λ kept x,
                  stock ← load_stock x;
                  mret (if Qle_bool (current_price stock) budget
                        then kept ++ [x] else kept))
               [] items;
  new (PyList kept).

Definition rank_single (budget : Q) (period : string) : Py loc :=
  r ← get_budget_optimized_stocks budget period;
  affordable_stocks r.1 budget.
End Assistant.
End Store.

(** [l] is a list of stock dicts with the values [stocks]. *)
Definition stocks_at (h : gmap loc object) (l : loc) (stocks : list stock) : Prop :=
  ∃ items, h !! l = Some (PyList items) ∧
           Forall2 (λ x d, h !! x = Some (StockDict d)) items stocks.

(** [l] is a list of allocation dicts with the values [lines]. *)
Definition portfolio_at (h : gmap loc object) (l : loc) (lines : list allocation)
  : Prop :=
  ∃ items, h !! l = Some (PyList items) ∧
           Forall2 (λ x d, h !! x = Some (AllocationDict d)) items lines.

(** Two runs end alike: with the same exception, or with results that hold
    the same values. *)
Definition same_outcome {V : Type} (value_at : gmap loc object → loc → V → Prop)
    (run1 run2 : gmap loc object * result loc) : Prop :=
  match run1.2, run2.2 with
  | Ok l1, Ok l2 => ∃ v, value_at run1.1 l1 v ∧ value_at run2.1 l2 v
  | Raise e1, Raise e2 => e1 = e2
  | _, _ => False
  end.

(** ** Specification-side notions *)


(** [key_is key k x]: the element [x] belongs to the class of key [k]. *)
Definition key_is {A : Type} (key : A → Q) (k : Q) (x : A) : bool :=
  Qeq_bool (key x) k.

(** [l'] is [l] ordered by [key] descending, ties in their order in [l]:
    [l'] is sorted and, for every key, it lists the elements of that key
    exactly as [l] does. *)
Definition stable_sorted_desc {A : Type} (key : A → Q) (l l' : list A) : Prop :=
  StronglySorted (λ a b, (key b <= key a)%Q) l' ∧
  ∀ k, List.filter (key_is key k) l' = List.filter (key_is key k) l.


(** [sum(line.cost for line in portfolio)]. *)
Definition sum_costs (portfolio : list allocation) : Q :=
  foldr (λ line acc, (cost line + acc)%Q) 0%Q portfolio.




(** Two decorated entries carry the same key and related payloads. *)
Definition related {X Y : Type} (R : X → Y → Prop) (a : Q * X) (b : Q * Y) : Prop :=
  a.1 = b.1 ∧ R a.2 b.2.

(** Every object of [h] other than [pl] is still there, unchanged, in [h']. *)
Definition unchanged_except (pl : loc) (h h' : gmap loc object) : Prop :=
  ∀ y o, y ≠ pl → h !! y = Some o → h' !! y = Some o.

(** ** Other methods of the assistant *)

(** The slice [l[:n]]: the first [n] items, or all but the last [-n] when
    [n] is negative. *)
Definition slice_to {A : Type} (l : list A) (n : Z) : list A :=
  if (0 <=? n)%Z then take (Z.to_nat n) l
  else take (Z.to_nat (Z.of_nat (length l) + n)) l.

Section Recommend.
Variable company_map : list (string * string).
Variable analyze_stock : string → string → option stock.

(** [recommend_stocks]: the analyses that succeeded, best
    [future_potential] first, cut to [num_recommendations]. *)
Definition recommend_stocks (num_recommendations : Z) (period : string)
  : result (list stock) :=
  stock_performances ←
    foldM (λ stock_performances sym,
             match analyze_stock sym period with
             | Some analysis => mret (stock_performances ++ [analysis])
             | None => mret stock_performances
             end)
          [] (company_map.*2);
  sorted_stocks ← sorted stock_performances (λ x, Ok (future_potential x)) true;
  mret (slice_to sorted_stocks num_recommendations).
End Recommend.

(** *** [calculate_risk_level] *)

(** The risk levels ['Low'], ['Moderate'], ['High']. *)
Inductive level : Type := Low | Moderate | High.

(** The keys of the analysis dict that [calculate_risk_level] reads. *)
Record indicators : Type := mkIndicators {
  volatility : Q;
  rsi : Q;
  price_trend : string
}.

(** The dict [risk_factors]: a level and a value (or a direction) for each
    of the three factors. *)
Record risk_factors : Type := mkRiskFactors {
  volatility_level : level;
  volatility_value : Q;
  rsi_level : level;
  rsi_value : Q;
  trend_level : level;
  trend_direction : string
}.

Record risk_assessment : Type := mkRiskAssessment {
  overall : level;
  factors : risk_factors
}.

(** [risk_scores = {'Low': 1, 'Moderate': 2, 'High': 3}] *)
Definition risk_scores (l : level) : Z :=
  match l with
  | Low => 1
  | Moderate => 2
  | High => 3
  end.

Definition calculate_risk_level (analysis : indicators) : risk_assessment :=
  let risk_factors :=
    {| volatility_level :=
         if Qlt_bool (volatility analysis) 0.15 then Low
         else if Qlt_bool 0.25 (volatility analysis) then High
         else Moderate;
       volatility_value := (volatility analysis * 100)%Q;
       rsi_level :=
         if Qlt_bool 70 (rsi analysis) || Qlt_bool (rsi analysis) 30 then High
         else if Qlt_bool 60 (rsi analysis) || Qlt_bool (rsi analysis) 40
              then Moderate
         else Low;
       rsi_value := rsi analysis;
       trend_level :=
         if String.eqb (price_trend analysis) "Downward" then High else Low;
       trend_direction := price_trend analysis |} in
  let total_score :=
    (risk_scores (volatility_level risk_factors)
     + risk_scores (rsi_level risk_factors)
     + risk_scores (trend_level risk_factors))%Z in
  let overall_risk :=
    if (total_score <=? 4)%Z then Low
    else if (7 <=? total_score)%Z then High
    else Moderate in
  {| overall := overall_risk; factors := risk_factors |}.

(** *** [detect_temporal_context] *)

(** [needle in hay] on strings. *)
Fixpoint contains (needle hay : string) : bool :=
  match hay with
  | EmptyString => String.prefix needle hay
  | String _ rest => String.prefix needle hay || contains needle rest
  end.

(** [self.temporal_map], in insertion order: each context with its
    keywords. *)
Definition past_keywords : list string :=
  ["last"; "previous"; "earlier"; "ago"; "historical"; "before";
   "past performance"].
Definition present_keywords : list string :=
  ["now"; "current"; "today"; "right now"; "present"; "ongoing"; "currently"].
Definition future_keywords : list string :=
  ["next"; "coming"; "upcoming"; "will"; "forecast"; "predict"; "future";
   "expected"; "invest in"; "good for investment"].

Definition temporal_map : list (string * list string) :=
  [("past", past_keywords); ("present", present_keywords);
   ("future", future_keywords)].

Section Temporal.
(** The builtin [str.lower]. *)
Variable lower : string → string.

(** The two nested loops return the first context one of whose keywords
    occurs in the lowered query. *)
Definition detect_temporal_context (query : string) : string :=
  let normalized_query := lower query in
  match List.find (λ entry : string * list string,
                     existsb (λ keyword, contains keyword normalized_query)
                             entry.2)
                  temporal_map with
  | Some (context, _) => context
  | None => "future"
  end.
End Temporal.

(** [s] occurs in [t]. *)
Definition occurs_in (s t : string) : Prop := ∃ pre post, t = pre +:+ s +:+ post.

(** *** [load_company_data] and [find_company_in_query] *)

(** A dict with string keys, in insertion order.  [d[k] = v] replaces the
    value of a key that is present, in place, and appends a new key. *)
Fixpoint dict_set {V : Type} (d : list (string * V)) (k : string) (v : V)
  : list (string * V) :=
  match d with
  | [] => [(k, v)]
  | (k', v') :: t =>
      if String.eqb k' k then (k', v) :: t else (k', v') :: dict_set t k v
  end.

Fixpoint dict_get {V : Type} (d : list (string * V)) (k : string) : option V :=
  match d with
  | [] => None
  | (k', v') :: t => if String.eqb k' k then Some v' else dict_get t k
  end.

(** The three dicts [load_company_data] fills. *)
Record company_data : Type := mkCompanyData {
  company_map_of : list (string * string);
  symbol_to_name_of : list (string * string);
  name_variations_of : list (string * string)
}.

Definition no_companies : company_data := mkCompanyData [] [] [].

(** [' '.join(parts)] *)
Fixpoint join_space (parts : list string) : string :=
  match parts with
  | [] => ""
  | [p] => p
  | p :: rest => p +:+ " " +:+ join_space rest
  end.

Section Loader.
(** The builtins [str.strip], [str.lower] and [str.split]. *)
Variable strip lower : string → string.
Variable split : string → list string.

(** The variations of a name: every run [name_parts[i:j]] of consecutive
    words, joined by a space, in the order of the two loops. *)
Definition add_variations (name_parts : list string) (company_name : string)
    (name_variations : list (string * string)) : list (string * string) :=
  foldl (λ nv i,
           foldl (λ nv j,
                    dict_set nv (join_space (take (j - i) (drop i name_parts)))
                             company_name)
                 nv (seq (i + 1) (length name_parts - i)))
        name_variations (seq 0 (length name_parts)).

(** One row of the CSV.  A cell that is not a string ([None], a NaN read
    from an empty cell) makes [.strip()] raise. *)
Definition load_row (data : company_data) (row : option string * option string)
  : option company_data :=
  name ← row.1;
  sym ← row.2;
  let company_name := strip name in
  let symbol := strip sym in
  let company_map :=
    dict_set (company_map_of data) (lower company_name) (symbol +:+ ".NS") in
  let symbol_to_name :=
    dict_set (symbol_to_name_of data) (lower symbol) company_name in
  let name_parts := split (lower company_name) in
  let name_variations :=
    add_variations name_parts company_name (name_variations_of data) in
  let company_map := dict_set company_map (lower symbol) (symbol +:+ ".NS") in
  let name_variations := dict_set name_variations (lower symbol) company_name in
  Some (mkCompanyData company_map symbol_to_name name_variations).

Fixpoint load_rows (data : company_data) (rows : list (option string * option string))
  : option company_data :=
  match rows with
  | [] => Some data
  | row :: rest => data' ← load_row data row; load_rows data' rest
  end.

(** [csv] is what [pd.read_csv] delivers: the rows with their two columns,
    or [None] when the file cannot be read.  Any exception leaves the three
    dicts empty. *)
Definition load_company_data (csv : option (list (option string * option string)))
  : company_data :=
  match rows ← csv; load_rows no_companies rows with
  | Some data => data
  | None => no_companies
  end.

(** [ImprovedMarketAssistant.common_symbols] *)
Definition common_symbols : list (string * string) :=
  [("HDFCBANK", "HDFCBANK.NS"); ("SBI", "SBIN.NS");
   ("BAJFINANCE", "BAJFINANCE.NS")].

(** The fuzzy matcher [process.extractOne]: a choice and its score. *)
Variable extractOne : string → list string → option (string * Z).

(** [ImprovedMarketAssistant.find_company_in_query]; a lookup of a key that
    is absent raises [KeyError]. *)
Definition find_company_in_query (data : company_data) (query : string)
  : result (option string) :=
  let query_lower := lower query in
  match List.find (λ entry : string * string, contains (lower entry.1) query_lower)
                  common_symbols with
  | Some (_, ns_symbol) => Ok (Some ns_symbol)
  | None =>
      let best_match := extractOne query_lower ((company_map_of data).*1) in
      let accepted :=
        match best_match with
        | Some (choice, score) => if (80 <? score)%Z then Some choice else None
        | None => None
        end in
      match accepted with
      | Some choice =>
          match dict_get (company_map_of data) choice with
          | Some symbol => Ok (Some symbol)
          | None => Raise KeyError
          end
      | None =>
          match List.find (λ entry : string * string, contains entry.1 query_lower)
                          (name_variations_of data) with
          | Some (_, company) =>
              match dict_get (company_map_of data) (lower company) with
              | Some symbol => Ok (Some symbol)
              | None => Raise KeyError
              end
          | None => Ok None
          end
      end
  end.
End Loader.

(** What the loader keeps true of its dicts: the company of every name
    variation has its lowered name among the keys of [company_map], and
    every value of [company_map] is a symbol followed by [".NS"]. *)
Definition consistent (lower : string → string) (data : company_data) : Prop :=
  (∀ variation company,
     In (variation, company) (name_variations_of data) →
     is_Some (dict_get (company_map_of data) (lower company))) ∧
  (∀ k v, In (k, v) (company_map_of data) → ∃ symbol, v = symbol +:+ ".NS").

(** *** The summary of the diversified portfolio in [process_query] *)



(** ** Example data *)

Definition asset_A : stock := analysis "A" 100 20.
Definition asset_B : stock := analysis "B" 50 15.

Definition example_map : list (string * string) := [("alpha", "A"); ("beta", "B")].

Definition example_scorer : string → string → option stock :=
  λ sym _,
    if String.eqb sym "A" then Some asset_A
    else if String.eqb sym "B" then Some asset_B
    else None.

(** Noisy upstream data: a record with a negative price. *)
Definition asset_N : stock := analysis "N" (-10) 5.



(** A map as [load_company_data] builds it: every symbol is the value of
    two keys, the company name and the symbol. *)
Definition doubled_map : list (string * string) :=
  [("alpha ltd", "A"); ("a", "A"); ("beta ltd", "B"); ("b", "B")].

(** A CSV with two companies, and one whose second row has an empty
    symbol cell. *)
Definition example_csv : list (option string * option string) :=
  [(Some "alpha ltd", Some "A"); (Some "beta ltd", Some "B")].

Definition broken_csv : list (option string * option string) :=
  [(Some "alpha ltd", Some "A"); (Some "beta ltd", None)].

(** A matcher that proposes the first choice with score 90. *)
Definition first_choice : string → list string → option (string * Z) :=
  λ _ choices,
    match choices with
    | choice :: _ => Some (choice, 90%Z)
    | [] => None
    end.


(** Two stores that hold the list [[asset_A; asset_B]] at different
    addresses. *)
Definition example_heap : gmap loc object :=
  <[3%positive:=PyList [1; 2]%positive]>
    (<[2%positive:=StockDict asset_B]> (<[1%positive:=StockDict asset_A]> ∅)).

Definition example_heap' : gmap loc object :=
  <[5%positive:=PyList [9; 4]%positive]>
    (<[4%positive:=StockDict asset_B]> (<[9%positive:=StockDict asset_A]> ∅)).

(** * Properties *)

(** ** Arithmetic of [int()] and true division *)




Lemma truediv_zero (a b : Q) : (b == 0)%Q → truediv a b = Raise ZeroDivisionError.
Proof.
  intros Hb. unfold truediv. apply Qeq_bool_iff in Hb. by rewrite Hb.
Qed.


(** ** Sorted lists *)

Section SortedLists.
Context {T : Type}.
Implicit Types (l : list T).

Lemma StronglySorted_snoc (R : T → T → Prop) l x :
  StronglySorted R l → Forall (λ y, R y x) l → StronglySorted R (l ++ [x]).
Proof.
  induction 1 as [|a t Hs IH Hall]; simpl; intros Hx.
  - repeat constructor.
  - apply Forall_cons_1 in Hx as [Hax Hx].
    constructor; [by apply IH|].
    apply Forall_app. by split; [|repeat constructor].
Qed.

Lemma StronglySorted_rev (R : T → T → Prop) l :
  StronglySorted R l → StronglySorted (λ a b, R b a) (rev l).
Proof.
  induction 1 as [|a t Hs IH Hall]; simpl; [constructor|].
  apply StronglySorted_snoc; [done|].
  apply List.Forall_forall. intros y Hy. apply in_rev in Hy.
  by eapply (proj1 (List.Forall_forall _ _) Hall).
Qed.

End SortedLists.

(** ** The stable sort behind [sorted] *)

Section SortedFacts.
Context {A : Type}.
Implicit Types (d : list (Q * A)) (l : list A) (f : A → Q).

Lemma insort_perm k x d : Permutation (insort k x d) ((k, x) :: d).
Proof.
  induction d as [|[k' y] t IH]; simpl; [done|].
  destruct (Qlt_bool k' k); [|done].
  rewrite IH. apply perm_swap.
Qed.

Lemma list_sort_perm d : Permutation (list_sort d) d.
Proof.
  induction d as [|[k x] t IH]; simpl; [done|].
  rewrite insort_perm. by constructor.
Qed.

Lemma key_is_fst k0 k x : key_is (A:=Q * A) fst k0 (k, x) = Qeq_bool k k0.
Proof. done. Qed.

(** Insertion puts the new element in front of its own key class and
    leaves the other classes alone. *)
Lemma insort_class k x d k0 :
  List.filter (key_is fst k0) (insort k x d) =
  if Qeq_bool k k0 then (k, x) :: List.filter (key_is fst k0) d
  else List.filter (key_is fst k0) d.
Proof.
  induction d as [|[k' y] t IH]; simpl.
  - rewrite key_is_fst. by destruct (Qeq_bool k k0).
  - destruct (Qlt_bool k' k) eqn:Hlt; simpl.
    + rewrite IH, !key_is_fst.
      destruct (Qeq_bool k k0) eqn:Hk; [|done].
      destruct (Qeq_bool k' k0) eqn:Hk'; [|done].
      apply Qeq_bool_iff in Hk, Hk'.
      unfold Qlt_bool in Hlt. apply negb_true_iff in Hlt.
      assert (k <= k')%Q as Hle by (rewrite Hk, Hk'; apply Qle_refl).
      apply Qle_bool_iff in Hle. congruence.
    + rewrite !key_is_fst. by destruct (Qeq_bool k k0).
Qed.

Lemma list_sort_class d k0 :
  List.filter (key_is fst k0) (list_sort d) = List.filter (key_is fst k0) d.
Proof.
  induction d as [|[k x] t IH]; simpl; [done|].
  rewrite insort_class, IH, key_is_fst.
  by destruct (Qeq_bool k k0).
Qed.

Lemma insort_sorted k x d :
  StronglySorted (λ a b, (a.1 <= b.1)%Q) d →
  StronglySorted (λ a b, (a.1 <= b.1)%Q) (insort k x d).
Proof.
  induction 1 as [|[k' y] t Hs IH Hall]; simpl.
  - repeat constructor.
  - destruct (Qlt_bool k' k) eqn:Hlt; unfold Qlt_bool in Hlt.
    + apply negb_true_iff in Hlt.
      assert (k' <= k)%Q as Hle.
      { destruct (Qlt_le_dec k k') as [H|H]; [|done].
        apply Qlt_le_weak, Qle_bool_iff in H. congruence. }
      constructor; [done|].
      eapply Permutation_Forall; [symmetry; apply insort_perm|].
      by constructor.
    + apply negb_false_iff, Qle_bool_iff in Hlt.
      constructor; [by constructor|].
      constructor; [done|].
      eapply Forall_impl; [exact Hall|].
      intros [k'' z] Hz. simpl in *. by apply Qle_trans with k'.
Qed.

Lemma list_sort_sorted d : StronglySorted (λ a b, (a.1 <= b.1)%Q) (list_sort d).
Proof.
  induction d as [|[k x] t IH]; simpl; [constructor|].
  by apply insort_sorted.
Qed.

Lemma traverse_total (key : A → result Q) f l :
  (∀ x, In x l → key x = Ok (f x)) → traverse key l = Ok (map f l).
Proof.
  induction l as [|x t IH]; simpl; intros Hkey; [done|].
  rewrite Hkey by auto. simpl. rewrite IH by auto. done.
Qed.

Lemma zip_keys f l : zip (map f l) l = map (λ x, (f x, x)) l.
Proof. induction l; simpl; congruence. Qed.

(** On a decorated list whose keys are those of [f], the classes of the
    payloads are the payloads of the classes. *)
Lemma class_payload f d k :
  Forall (λ kx, kx.1 = f kx.2) d →
  List.filter (key_is f k) (d.*2) = (List.filter (key_is fst k) d).*2.
Proof.
  induction 1 as [|[k' x] t Hk Ht IH]; csimpl; [done|].
  rewrite key_is_fst. unfold key_is at 1. simpl in Hk. subst k'.
  destruct (Qeq_bool (f x) k); csimpl; by rewrite IH.
Qed.

Lemma sorted_payload f d :
  Forall (λ kx, kx.1 = f kx.2) d →
  StronglySorted (λ a b, (b.1 <= a.1)%Q) d →
  StronglySorted (λ a b, (f b <= f a)%Q) (d.*2).
Proof.
  intros Hd. induction 1 as [|[k x] t Hs IH Hall]; csimpl; [constructor|].
  apply Forall_cons_1 in Hd as [Hk Hd]. simpl in Hk. subst k.
  constructor; [by apply IH|].
  apply Forall_fmap, List.Forall_forall. intros [k' y] Hy. simpl.
  pose proof (proj1 (List.Forall_forall _ _) Hall _ Hy) as Hle.
  pose proof (proj1 (List.Forall_forall _ _) Hd _ Hy) as Hk'.
  simpl in *. by subst k'.
Qed.

(** [sorted(l, key=f, reverse=True)] on a key that does not raise. *)
Lemma sorted_reverse_spec (key : A → result Q) f l :
  (∀ x, In x l → key x = Ok (f x)) →
  ∃ l', sorted l key true = Ok l' ∧ stable_sorted_desc f l l'.
Proof.
  intros Hkey. unfold sorted. rewrite (traverse_total key f) by done.
  simpl. rewrite zip_keys. eexists; split; [done|].
  set (d0 := map (λ x, (f x, x)) l).
  assert (Forall (λ kx : Q * A, kx.1 = f kx.2) d0) as Hd0.
  { apply List.Forall_forall. intros kx Hin. apply in_map_iff in Hin as (x & <- & _).
    done. }
  assert (Forall (λ kx : Q * A, kx.1 = f kx.2) (rev (list_sort (rev d0)))) as Hd.
  { eapply Permutation_Forall; [|exact Hd0].
    rewrite <- Permutation_rev, list_sort_perm. apply Permutation_rev. }
  split.
  - apply sorted_payload; [done|].
    apply (StronglySorted_rev (T:=Q * A)), list_sort_sorted.
  - intros k. rewrite (class_payload f) by done.
    rewrite filter_rev, list_sort_class, filter_rev, rev_involutive.
    rewrite <- (class_payload f) by done.
    unfold d0. f_equal. clear. induction l; csimpl; congruence.
Qed.
End SortedFacts.

(** ** Stable descending order *)

Section StableOrder.
Context {A : Type} (f : A → Q).
Implicit Types (l : list A).











End StableOrder.

(** ** The greedy loop *)

Section Greedy.
Implicit Types (p : list allocation) (r : Q) (s : stock) (l : list stock).
















End Greedy.

(** ** [optimize_portfolio] *)

Section OptimizePortfolio.
Implicit Types (p : list allocation) (r B : Q) (s : stock)
  (stocks order : list stock).





(** A record priced zero anywhere in the input makes the ranking step
    raise. *)
Lemma zero_price_raises_always stocks B :
  Exists (λ s, (current_price s == 0)%Q) stocks →
  optimize_portfolio stocks B = Raise ZeroDivisionError.
Proof.
  intros Hz. unfold optimize_portfolio, sorted.
  assert (traverse efficiency_key stocks = Raise ZeroDivisionError) as ->; [|done].
  induction Hz as [s t Hs|s t Ht IH]; cbn [traverse].
  - assert (efficiency_key s = Raise ZeroDivisionError) as ->; [|done].
    by apply truediv_zero.
  - rewrite IH. unfold efficiency_key, truediv.
    by destruct (Qeq_bool (current_price s) 0).
Qed.


End OptimizePortfolio.

(** ** [get_budget_optimized_stocks] and the single-asset ranking *)

Section Ranking.
Variable company_map : list (string * string).
Variable analyze_stock : string → string → option stock.
Implicit Types (B : Q) (s : stock) (period : string).

Lemma Qlt_bool_iff (a b : Q) : Qlt_bool a b = true ↔ (a < b)%Q.
Proof.
  unfold Qlt_bool. rewrite negb_true_iff. split.
  - intros H. destruct (Qlt_le_dec a b) as [|Hle]; [done|].
    apply Qle_bool_iff in Hle. congruence.
  - intros H. destruct (Qle_bool b a) eqn:E; [|done].
    apply Qle_bool_iff in E. lra.
Qed.




Lemma consider_none B period (acc : list stock) sym :
  analyze_stock sym period = None →
  consider analyze_stock B period acc sym = Ok acc.
Proof. intros Hs. unfold consider. by rewrite Hs. Qed.






End Ranking.
(** ** The object store *)

Section StoreFacts.
Implicit Types (h : gmap loc object) (l pl : loc) (items : list loc).

Lemma fresh_unused h : h !! fresh (dom h) = None.
Proof. apply not_elem_of_dom, is_fresh. Qed.

Lemma bind_run {A B : Type} (m : Py A) (f : A → Py B) h :
  (m ≫= f) h = match m h with
               | (h', Ok a) => f a h'
               | (h', Raise e) => (h', Raise e)
               end.
Proof. done. Qed.

Lemma load_stock_run h l d :
  h !! l = Some (StockDict d) → Store.load_stock l h = (h, Ok d).
Proof. intros H. unfold Store.load_stock. by rewrite H. Qed.

Lemma load_list_run h l items :
  h !! l = Some (PyList items) → Store.load_list l h = (h, Ok items).
Proof. intros H. unfold Store.load_list. by rewrite H. Qed.

Lemma stocks_at_weaken h h' l stocks :
  h ⊆ h' → stocks_at h l stocks → stocks_at h' l stocks.
Proof.
  intros Hsub (items & Hl & Hitems). exists items. split.
  - exact (lookup_weaken _ _ _ _ Hl Hsub).
  - eapply Forall2_impl; [exact Hitems|]. intros x d Hx.
    exact (lookup_weaken _ _ _ _ Hx Hsub).
Qed.

(** The key functions only read. *)
Lemma traverse_keys h (key : stock → result Q) items stocks :
  Forall2 (λ x d, h !! x = Some (StockDict d)) items stocks →
  Store.traverse (λ x, d ← Store.load_stock x; Store.lift (key d)) items h
    = (h, traverse key stocks).
Proof.
  induction 1 as [|x d items stocks Hx Hitems IH]; [done|].
  cbn [Store.traverse traverse]. rewrite bind_run, bind_run.
  rewrite (load_stock_run h x d) by done. unfold Store.lift at 1.
  destruct (key d) as [k|e]; [|done].
  rewrite bind_run, IH. cbn [mbind result_bind].
  by destruct (traverse key stocks).
Qed.
End StoreFacts.

(** The sort moves references the way it moves the values they denote. *)

Section SortRelated.
Context {X Y : Type} (R : X → Y → Prop).
Lemma zip_related keys xs ys :
  Forall2 R xs ys → Forall2 (related R) (zip keys xs) (zip keys ys).
Proof.
  intros H. revert keys. induction H as [|x y xs ys Hxy H IH]; intros keys.
  - destruct keys; constructor.
  - destruct keys as [|k keys]; [constructor|].
    simpl. constructor; [done|apply IH].
Qed.

Lemma insort_related k x y d1 d2 :
  R x y → Forall2 (related R) d1 d2 →
  Forall2 (related R) (insort k x d1) (insort k y d2).
Proof.
  intros Hxy. induction 1 as [|[k1 x1] [k2 y2] d1 d2 [Hk Hr] Hd IH]; simpl.
  - by repeat constructor.
  - simpl in Hk. subst k2. destruct (Qlt_bool k1 k).
    + constructor; [done|apply IH].
    + constructor; [done|]. by constructor.
Qed.

Lemma list_sort_related d1 d2 :
  Forall2 (related R) d1 d2 → Forall2 (related R) (list_sort d1) (list_sort d2).
Proof.
  induction 1 as [|[k1 x1] [k2 y2] d1 d2 [Hk Hr] Hd IH]; simpl; [constructor|].
  simpl in Hk. subst k2. by apply insort_related.
Qed.

Lemma rev_related {U V : Type} (P : U → V → Prop) l1 l2 :
  Forall2 P l1 l2 → Forall2 P (rev l1) (rev l2).
Proof.
  induction 1; simpl; [constructor|].
  apply Forall2_app; [done|]. by repeat constructor.
Qed.

Lemma payload_related d1 d2 : Forall2 (related R) d1 d2 → Forall2 R (d1.*2) (d2.*2).
Proof. intros H. apply Forall2_fmap. eapply Forall2_impl; [exact H|]. by intros ?? []. Qed.
End SortRelated.

Section StoreRuns.
Implicit Types (h : gmap loc object) (l pl : loc) (items : list loc).

(** [sorted] leaves every existing object alone and returns a new list
    that denotes the sorted values. *)
Lemma sorted_run h l (key : stock → result Q) stocks reverse :
  stocks_at h l stocks →
  ∃ h' r,
    Store.sorted l (λ x, d ← Store.load_stock x; Store.lift (key d)) reverse h
      = (h', r) ∧
    h ⊆ h' ∧
    match sorted stocks key reverse with
    | Ok order => ∃ l', r = Ok l' ∧ h !! l' = None ∧ stocks_at h' l' order
    | Raise e => r = Raise e
    end.
Proof.
  intros (items & Hl & Hitems). unfold Store.sorted, sorted.
  rewrite bind_run, (load_list_run h l items) by done.
  rewrite bind_run. unfold Store.new at 1.
  set (r := fresh (dom h)). set (h1 := <[r:=PyList items]> h).
  assert (h !! r = None) as Hr by apply fresh_unused.
  assert (h ⊆ h1) as Hsub by by apply insert_subseteq.
  rewrite bind_run, (traverse_keys h1 key items stocks).
  2:{ eapply Forall2_impl; [exact Hitems|]. intros x d Hx.
      exact (lookup_weaken _ _ _ _ Hx Hsub). }
  destruct (traverse key stocks) as [keys|e]; cbn [mbind result_bind].
  - eexists _, _. split; [done|]. unfold h1. rewrite insert_insert_eq.
    split; [by apply insert_subseteq|].
    exists r. split_and!; [done..|].
    eexists. split; [apply lookup_insert_eq|].
    apply payload_related.
    assert (Forall2 (related (λ x d, <[r:=PyList
              (if reverse
               then rev (list_sort (rev (zip keys items)))
               else list_sort (zip keys items)).*2]> h !! x = Some (StockDict d)))
              (zip keys items) (zip keys stocks)) as Hzip.
    { apply zip_related. eapply Forall2_impl; [exact Hitems|].
      intros x d Hx. rewrite lookup_insert_ne; [done|]. congruence. }
    destruct reverse.
    + by apply rev_related, list_sort_related, rev_related.
    + by apply list_sort_related.
  - by eexists _, _.
Qed.

(** Allocation of a line followed by [portfolio.append]. *)
Lemma append_new {V : Type} h pl items o (v : V) :
  h !! pl = Some (PyList items) →
  let a := fresh (dom h) in
  let h' := <[pl:=PyList (items ++ [a])]> (<[a:=o]> h) in
  (x ← Store.new o; Store.append pl x;; mret v) h = (h', Ok v) ∧
  h !! a = None ∧ a ≠ pl ∧
  h' !! pl = Some (PyList (items ++ [a])) ∧ h' !! a = Some o ∧
  (∀ x, x ≠ pl → x ≠ a → h' !! x = h !! x).
Proof.
  intros Hpl a h'.
  assert (h !! a = None) as Ha by apply fresh_unused.
  assert (a ≠ pl) as Hne by congruence.
  split_and!; [|done|done|apply lookup_insert_eq| |].
  - rewrite bind_run. unfold Store.new. fold a.
    rewrite bind_run. unfold Store.append. rewrite bind_run.
    rewrite (load_list_run _ pl items) by (by rewrite lookup_insert_ne).
    done.
  - unfold h'. rewrite lookup_insert_ne by done. apply lookup_insert_eq.
  - intros x H1 H2. unfold h'. by rewrite !lookup_insert_ne.
Qed.

Lemma unchanged_except_refl pl h : unchanged_except pl h h.
Proof. by intros y o _ H. Qed.

Lemma unchanged_except_trans pl h1 h2 h3 :
  unchanged_except pl h1 h2 → unchanged_except pl h2 h3 →
  unchanged_except pl h1 h3.
Proof. intros H12 H23 y o Hy H. by apply H23, H12. Qed.

Lemma unchanged_except_subseteq pl h0 h h' :
  h0 ⊆ h → h0 !! pl = None → unchanged_except pl h h' → h0 ⊆ h'.
Proof.
  intros Hsub Hpl Hun. apply map_subseteq_spec. intros y o Hy.
  apply Hun; [congruence|]. exact (lookup_weaken _ _ _ _ Hy Hsub).
Qed.

(** One iteration of the loop of [optimize_portfolio] over the store. *)
Lemma allocate_run h pl items lines r x d :
  h !! pl = Some (PyList items) →
  Forall2 (λ y a, h !! y = Some (AllocationDict a)) items lines →
  h !! x = Some (StockDict d) →
  ∃ h' res,
    Store.allocate pl r x h = (h', res) ∧ unchanged_except pl h h' ∧
    match allocate (lines, r) d with
    | Ok (lines', r') =>
        res = Ok r' ∧
        ∃ new_items,
          h' !! pl = Some (PyList (items ++ new_items)) ∧
          Forall2 (λ y a, h' !! y = Some (AllocationDict a))
                  (items ++ new_items) lines' ∧
          Forall (λ y, h !! y = None) new_items
    | Raise e => res = Raise e
    end.
Proof.
  intros Hpl Hitems Hx. unfold Store.allocate, allocate.
  rewrite bind_run, (load_stock_run h x d) by done.
  destruct (Qle_bool (current_price d) r).
  2:{ exists h, (Ok r). split_and!; [done|apply unchanged_except_refl|].
      split; [done|]. exists []. rewrite app_nil_r. by split_and!. }
  rewrite bind_run. unfold Store.lift at 1.
  destruct (truediv r (current_price d)) as [q|e]; cbn [mbind result_bind].
  2:{ exists h, (Raise e). split_and!; [done|apply unchanged_except_refl|done]. }
  destruct (0 <? py_int q)%Z.
  2:{ exists h, (Ok r). split_and!; [done|apply unchanged_except_refl|].
      split; [done|]. exists []. rewrite app_nil_r. by split_and!. }
  match goal with
  | |- context [Store.new (AllocationDict ?line)] =>
      destruct (append_new h pl items (AllocationDict line) (r - cost line)%Q Hpl)
        as (Hrun & Ha & Hne & Hpl' & Ha' & Hother)
  end.
  eexists _, _. split; [exact Hrun|]. split.
  - intros y o Hy Hyo. rewrite Hother; [done..|]. congruence.
  - cbn [mret result_ret]. split; [done|].
    exists [fresh (dom h)]. split_and!; [done| |by repeat constructor].
    apply Forall2_app; [|by repeat constructor].
    eapply Forall2_impl; [exact Hitems|]. intros y a Hy.
    rewrite Hother; [done|congruence..].
Qed.

Lemma allocate_loop h pl items lines order stocks B :
  h !! pl = Some (PyList items) →
  Forall2 (λ y a, h !! y = Some (AllocationDict a)) items lines →
  Forall2 (λ x d, h !! x = Some (StockDict d)) order stocks →
  ∃ h' res,
    Store.foldM (Store.allocate pl) B order h = (h', res) ∧
    unchanged_except pl h h' ∧
    match foldM allocate (lines, B) stocks with
    | Ok (lines', B') =>
        res = Ok B' ∧
        ∃ new_items,
          h' !! pl = Some (PyList (items ++ new_items)) ∧
          Forall2 (λ y a, h' !! y = Some (AllocationDict a))
                  (items ++ new_items) lines' ∧
          Forall (λ y, h !! y = None) new_items
    | Raise e => res = Raise e
    end.
Proof.
  revert h items lines B stocks.
  induction order as [|x order IH]; intros h items lines B stocks Hpl Hitems Hstocks.
  - apply Forall2_nil_inv_l in Hstocks as ->.
    exists h, (Ok B). split_and!; [done|apply unchanged_except_refl|].
    cbn [foldM]. split; [done|]. exists []. rewrite app_nil_r. by split_and!.
  - apply Forall2_cons_inv_l in Hstocks as (d & stocks' & Hx' & Hstocks & ->).
    rename stocks' into stocks.
    destruct (allocate_run h pl items lines B x d Hpl Hitems Hx')
      as (h1 & res1 & Hrun1 & Hun1 & Hres1).
    cbn [Store.foldM foldM]. rewrite bind_run, Hrun1.
    destruct (allocate (lines, B) d) as [[lines1 B1]|e]; cbn [mbind result_bind].
    2:{ subst res1. by exists h1, (Raise e). }
    destruct Hres1 as (-> & new1 & Hpl1 & Hitems1 & Hnew1).
    destruct (IH h1 (items ++ new1) lines1 B1 stocks Hpl1 Hitems1)
      as (h2 & res2 & Hrun2 & Hun2 & Hres2).
    { eapply Forall2_impl; [exact Hstocks|]. intros y a Hy.
      apply Hun1; [congruence|done]. }
    exists h2, res2. split_and!; [done|by eapply unchanged_except_trans|].
    destruct (foldM allocate (lines1, B1) stocks) as [[lines2 B2]|e]; [|done].
    destruct Hres2 as (-> & new2 & Hpl2 & Hitems2 & Hnew2). split; [done|].
    exists (new1 ++ new2). rewrite app_assoc. split_and!; [done..|].
    apply Forall_app. split; [done|].
    eapply Forall_impl; [exact Hnew2|]. intros y Hy. simpl in Hy.
    destruct (h !! y) as [o|] eqn:E; [|done].
    destruct (decide (y = pl)) as [->|Hne]; [congruence|].
    apply Hun1 in E; [congruence|done].
Qed.

(** [optimize_portfolio] over the store: existing objects are left alone,
    and the returned list denotes the result of the value-level function. *)
Lemma optimize_portfolio_run h sl stocks B :
  stocks_at h sl stocks →
  ∃ h' res,
    Store.optimize_portfolio sl B h = (h', res) ∧ h ⊆ h' ∧
    match optimize_portfolio stocks B with
    | Ok lines =>
        ∃ pl items,
          res = Ok pl ∧ h !! pl = None ∧ h' !! pl = Some (PyList items) ∧
          Forall (λ y, h !! y = None) items ∧
          Forall2 (λ y a, h' !! y = Some (AllocationDict a)) items lines
    | Raise e => res = Raise e
    end.
Proof.
  intros Hstocks. unfold Store.optimize_portfolio, optimize_portfolio.
  rewrite bind_run. unfold Store.new at 1.
  set (pl := fresh (dom h)). set (h1 := <[pl:=PyList []]> h).
  assert (h !! pl = None) as Hpl by apply fresh_unused.
  assert (h ⊆ h1) as Hsub1 by by apply insert_subseteq.
  destruct (sorted_run h1 sl efficiency_key stocks true)
    as (h2 & res2 & Hrun2 & Hsub2 & Hres2); [by eapply stocks_at_weaken|].
  rewrite bind_run, Hrun2.
  destruct (sorted stocks efficiency_key true) as [order|e];
    cbn [mbind result_bind].
  2:{ subst res2. exists h2, (Raise e). split_and!; [done| |done]. by trans h1. }
  destruct Hres2 as (ol & -> & Hol & (oitems & Hol2 & Horder)).
  rewrite bind_run, (load_list_run h2 ol oitems) by done.
  assert (h2 !! pl = Some (PyList [])) as Hpl2.
  { eapply lookup_weaken; [|exact Hsub2]. apply lookup_insert_eq. }
  destruct (allocate_loop h2 pl [] [] oitems order B Hpl2 ltac:(constructor) Horder)
    as (h3 & res3 & Hrun3 & Hun3 & Hres3).
  rewrite bind_run, Hrun3.
  assert (h ⊆ h3) as Hsub3.
  { eapply unchanged_except_subseteq; [|exact Hpl|exact Hun3]. by trans h1. }
  destruct (foldM allocate ([], B) order) as [[lines B']|e];
    cbn [mbind result_bind].
  2:{ subst res3. by exists h3, (Raise e). }
  destruct Hres3 as (-> & items & Hpl3 & Hitems & Hnew).
  exists h3, (Ok pl). split_and!; [done..|].
  exists pl, items. split_and!; [done..| |done].
  eapply Forall_impl; [exact Hnew|]. intros y Hy. simpl in Hy.
  destruct (h !! y) as [o|] eqn:E; [|done].
  assert (h2 !! y = Some o) as E2.
  { eapply lookup_weaken; [exact E|]. by trans h1. }
  congruence.
Qed.

Lemma modify_stock_run h l d (f : stock → stock) :
  h !! l = Some (StockDict d) →
  Store.modify_stock l f h = (<[l:=StockDict (f d)]> h, Ok ()).
Proof.
  intros H. unfold Store.modify_stock. by rewrite bind_run, (load_stock_run h l d).
Qed.

Lemma append_run h l items x :
  h !! l = Some (PyList items) →
  Store.append l x h = (<[l:=PyList (items ++ [x])]> h, Ok ()).
Proof.
  intros H. unfold Store.append. by rewrite bind_run, (load_list_run h l items).
Qed.

Section Assistant.
Variable company_map : list (string * string).
Variable analyze_stock : string → string → option stock.

(** One iteration of the loop of [get_budget_optimized_stocks] over the
    store; [al] is [all_stocks]. *)
Lemma consider_run h al items acc sym B period :
  h !! al = Some (PyList items) →
  Forall2 (λ x d, h !! x = Some (StockDict d)) items acc →
  ∃ h' res,
    Store.consider analyze_stock B period al () sym h = (h', res) ∧
    unchanged_except al h h' ∧
    match consider analyze_stock B period acc sym with
    | Ok acc' =>
        res = Ok () ∧
        ∃ items', h' !! al = Some (PyList items') ∧
                  Forall2 (λ x d, h' !! x = Some (StockDict d)) items' acc'
    | Raise e => res = Raise e
    end.
Proof.
  intros Hal Hitems. unfold Store.consider, consider, Store.call_analyze_stock.
  destruct (analyze_stock sym period) as [d|].
  2:{ exists h, (Ok ()). split_and!; [done|apply unchanged_except_refl|].
      split; [done|]. by exists items. }
  rewrite bind_run, bind_run. unfold Store.new at 1.
  set (a := fresh (dom h)). set (h1 := <[a:=StockDict d]> h).
  assert (h !! a = None) as Ha by apply fresh_unused.
  assert (a ≠ al) as Hne by congruence.
  assert (unchanged_except al h h1) as Hun1.
  { intros y o _ Hy. unfold h1. rewrite lookup_insert_ne; [done|congruence]. }
  cbn [mret Py_ret].
  rewrite bind_run, (load_stock_run h1 a d) by apply lookup_insert_eq.
  rewrite bind_run. unfold Store.lift at 1.
  destruct (truediv B (current_price d)) as [q|e]; cbn [mbind result_bind].
  2:{ by exists h1, (Raise e). }
  destruct (0 <? py_int q)%Z.
  2:{ exists h1, (Ok ()). split_and!; [done..|]. split; [done|].
      exists items. split; [unfold h1; by rewrite lookup_insert_ne|].
      eapply Forall2_impl; [exact Hitems|]. intros y o Hy.
      apply Hun1; [congruence|done]. }
  rewrite bind_run, (modify_stock_run h1 a d) by apply lookup_insert_eq.
  rewrite bind_run, (load_stock_run _ a _) by apply lookup_insert_eq.
  rewrite bind_run, (modify_stock_run _ a _) by apply lookup_insert_eq.
  rewrite bind_run, (load_stock_run _ a _) by apply lookup_insert_eq.
  rewrite bind_run. unfold Store.lift at 1. cbn [total_cost Store.set_total_cost].
  rewrite bind_run, (modify_stock_run _ a _) by apply lookup_insert_eq.
  unfold h1. rewrite !insert_insert_eq.
  rewrite (append_run _ al items) by (by rewrite lookup_insert_ne).
  eexists _, _. split; [done|]. split.
  - intros y o Hy Hyo. rewrite lookup_insert_ne by done.
    rewrite lookup_insert_ne; [done|congruence].
  - cbn [mret result_ret]. split; [done|].
    eexists. split; [apply lookup_insert_eq|].
    apply Forall2_app.
    + eapply Forall2_impl; [exact Hitems|]. intros y o Hy.
      rewrite !lookup_insert_ne; [done|congruence..].
    + repeat constructor. rewrite lookup_insert_ne by done.
      by rewrite lookup_insert_eq.
Qed.

Lemma consider_loop_run h al items acc syms B period :
  h !! al = Some (PyList items) →
  Forall2 (λ x d, h !! x = Some (StockDict d)) items acc →
  ∃ h' res,
    Store.foldM (Store.consider analyze_stock B period al) () syms h
      = (h', res) ∧
    unchanged_except al h h' ∧
    match foldM (consider analyze_stock B period) acc syms with
    | Ok acc' => res = Ok () ∧ stocks_at h' al acc'
    | Raise e => res = Raise e
    end.
Proof.
  revert h items acc. induction syms as [|sym syms IH]; intros h items acc Hal Hitems.
  - exists h, (Ok ()). split_and!; [done|apply unchanged_except_refl|].
    cbn [foldM]. split; [done|]. by exists items.
  - destruct (consider_run h al items acc sym B period Hal Hitems)
      as (h1 & res1 & Hrun1 & Hun1 & Hres1).
    cbn [Store.foldM foldM]. rewrite bind_run, Hrun1.
    destruct (consider analyze_stock B period acc sym) as [acc1|e];
      cbn [mbind result_bind].
    2:{ subst res1. by exists h1, (Raise e). }
    destruct Hres1 as (-> & items1 & Hal1 & Hitems1).
    destruct (IH h1 items1 acc1 Hal1 Hitems1)
      as (h2 & res2 & Hrun2 & Hun2 & Hres2).
    exists h2, res2. split_and!; [done| |done].
    by eapply unchanged_except_trans.
Qed.

(** [get_budget_optimized_stocks] over the store. *)
Lemma get_budget_optimized_stocks_run h B period :
  ∃ h' res,
    Store.get_budget_optimized_stocks company_map analyze_stock B period h
      = (h', res) ∧ h ⊆ h' ∧
    match get_budget_optimized_stocks company_map analyze_stock B period with
    | Ok (single_stock, multi_stock_combo) =>
        ∃ sl ml, res = Ok (sl, ml) ∧ stocks_at h' sl single_stock ∧
                 portfolio_at h' ml multi_stock_combo
    | Raise e => res = Raise e
    end.
Proof.
  unfold Store.get_budget_optimized_stocks, get_budget_optimized_stocks.
  rewrite bind_run. unfold Store.new at 1.
  set (al := fresh (dom h)). set (h1 := <[al:=PyList []]> h).
  assert (h !! al = None) as Hal by apply fresh_unused.
  assert (h ⊆ h1) as Hsub1 by by apply insert_subseteq.
  destruct (consider_loop_run h1 al [] [] (company_map.*2) B period)
    as (h2 & res2 & Hrun2 & Hun2 & Hres2);
    [apply lookup_insert_eq|constructor|].
  rewrite bind_run, Hrun2.
  assert (h ⊆ h2) as Hsub2 by by eapply unchanged_except_subseteq.
  destruct (foldM (consider analyze_stock B period) [] company_map.*2)
    as [all_stocks|e]; cbn [mbind result_bind].
  2:{ subst res2. by exists h2, (Raise e). }
  destruct Hres2 as [-> Hall].
  destruct (sorted_run h2 al (λ x, Ok (future_potential x)) all_stocks true Hall)
    as (h3 & res3 & Hrun3 & Hsub3 & Hres3).
  rewrite bind_run.
  change (Store.sorted al
            (λ x, Store.load_stock x ≫= λ d, mret (future_potential d)) true h2)
    with (Store.sorted al
            (λ x, Store.load_stock x ≫= λ d, Store.lift (Ok (future_potential d)))
            true h2).
  rewrite Hrun3.
  destruct (sorted all_stocks (λ x, Ok (future_potential x)) true)
    as [single|e]; cbn [mbind result_bind].
  2:{ subst res3. exists h3, (Raise e). split_and!; [done| |done]. by trans h2. }
  destruct Hres3 as (sl & -> & _ & Hsingle).
  destruct (optimize_portfolio_run h3 al all_stocks B)
    as (h4 & res4 & Hrun4 & Hsub4 & Hres4); [by eapply stocks_at_weaken|].
  rewrite bind_run, Hrun4.
  assert (h ⊆ h4) as Hsub by (trans h2; [done|by trans h3]).
  destruct (optimize_portfolio all_stocks B) as [multi|e];
    cbn [mbind result_bind].
  2:{ subst res4. by exists h4, (Raise e). }
  destruct Hres4 as (ml & items & -> & _ & Hml & _ & Hitems).
  exists h4, (Ok (sl, ml)). split_and!; [done..|].
  cbn [mret result_ret].
  exists sl, ml.
  split_and!; [done|exact (stocks_at_weaken _ _ _ _ Hsub4 Hsingle)|].
  by exists items.
Qed.

(** The list comprehension of [process_query] over the store. *)
Lemma affordable_loop h B items stocks kept acc :
  Forall2 (λ x d, h !! x = Some (StockDict d)) items stocks →
  Forall2 (λ x d, h !! x = Some (StockDict d)) kept acc →
  ∃ kept',
    Store.foldM (λ kept x,
                   stock ← Store.load_stock x;
                   mret (if Qle_bool (current_price stock) B
                         then kept ++ [x] else kept))
                kept items h = (h, Ok kept') ∧
    Forall2 (λ x d, h !! x = Some (StockDict d)) kept'
            (acc ++ affordable_stocks stocks B).
Proof.
  intros Hitems. revert kept acc.
  induction Hitems as [|x d items stocks Hx Hitems IH]; intros kept acc Hkept.
  - exists kept. split; [done|]. unfold affordable_stocks. simpl.
    by rewrite app_nil_r.
  - cbn [Store.foldM]. rewrite bind_run, bind_run.
    rewrite (load_stock_run h x d) by done. cbn [mret Py_ret].
    unfold affordable_stocks. cbn [List.filter].
    destruct (Qle_bool (current_price d) B).
    + destruct (IH (kept ++ [x]) (acc ++ [d])) as (kept' & Hrun & Hkept').
      { apply Forall2_app; [done|by repeat constructor]. }
      exists kept'. split; [done|].
      rewrite <- app_assoc in Hkept'. done.
    + by apply IH.
Qed.

(** The single-asset ranking over the store. *)
Lemma rank_single_run h B period :
  ∃ h' res,
    Store.rank_single company_map analyze_stock B period h = (h', res) ∧
    h ⊆ h' ∧
    match rank_single company_map analyze_stock B period with
    | Ok ranking => ∃ l, res = Ok l ∧ stocks_at h' l ranking
    | Raise e => res = Raise e
    end.
Proof.
  unfold Store.rank_single, rank_single.
  destruct (get_budget_optimized_stocks_run h B period)
    as (h1 & res1 & Hrun1 & Hsub1 & Hres1).
  rewrite bind_run, Hrun1.
  destruct (get_budget_optimized_stocks company_map analyze_stock B period)
    as [[single multi]|e]; cbn [mbind result_bind].
  2:{ subst res1. by exists h1, (Raise e). }
  destruct Hres1 as (sl & ml & -> & (items & Hsl & Hitems) & _).
  unfold Store.affordable_stocks. cbn [fst].
  rewrite bind_run, (load_list_run h1 sl items) by done.
  destruct (affordable_loop h1 B items single [] [] Hitems ltac:(constructor))
    as (kept & Hrun & Hkept).
  rewrite bind_run, Hrun. unfold Store.new.
  assert (h1 !! fresh (dom h1) = None) as Hfresh by apply fresh_unused.
  eexists _, _. split; [done|]. split.
  { trans h1; [done|]. by apply insert_subseteq. }
  cbn [mret result_ret]. eexists. split; [done|].
  exists kept. split; [apply lookup_insert_eq|].
  eapply Forall2_impl; [exact Hkept|]. intros y d Hy.
  rewrite lookup_insert_ne; [done|congruence].
Qed.
End Assistant.
End StoreRuns.

(** * Scenarios

    The model evaluated on the example scenarios of the specification. *)

(** Budget 40: neither asset is affordable. *)
Example scenario_nothing_affordable :
  optimize_portfolio [asset_A; asset_B] 40 = Ok [].
Proof. reflexivity. Qed.

(** Ranking with budget 60: only B qualifies. *)
Example scenario_rank_single :
  ∃ ranking, rank_single example_map example_scorer 60 "3mo" = Ok ranking ∧
             symbol <$> ranking = ["B"].
Proof. eexists. split; [vm_compute; reflexivity|reflexivity]. Qed.

(** Ranking with budget 120: both qualify, A (potential 20) before B (15). *)
Example scenario_rank_both :
  ∃ ranking, rank_single example_map example_scorer 120 "3mo" = Ok ranking ∧
             symbol <$> ranking = ["A"; "B"].
Proof. eexists. split; [vm_compute; reflexivity|reflexivity]. Qed.

(** A record with a negative price is passed over. *)
Example scenario_negative_price :
  ∃ portfolio, optimize_portfolio [asset_A; asset_N; asset_B] 120 = Ok portfolio ∧
               line_symbol <$> portfolio = ["B"].
Proof. eexists. split; [vm_compute; reflexivity|reflexivity]. Qed.

(** Over the store: the input list at address 3 is still [[1; 2]] after the
    call, and the portfolio is a new list with one new line. *)
Example scenario_store :
  let run := Store.optimize_portfolio 3%positive 120 example_heap in
  run.2 = Ok 4%positive ∧
  run.1 !! 3%positive = Some (PyList [1; 2]%positive) ∧
  run.1 !! 4%positive = Some (PyList [6%positive]) ∧
  example_heap !! 6%positive = None.
Proof. vm_compute. by split_and!. Qed.

(** * The allocator's contract *)

Section Contract.
Implicit Types (stocks order : list stock) (B : Q).


(** C2, as stated: the example portfolio would carry a potential return of
    30.  The code does not produce it. *)
Lemma example_return_is_not_30 :
  ¬ ∃ line,
      optimize_portfolio [asset_A; asset_B] 120 = Ok [line] ∧
      line_symbol line = "B" ∧ shares line = 2%Z ∧
      (cost line == 100)%Q ∧ (potential_return line == 30)%Q.
Proof.
  intros (line & Hrun & _ & _ & _ & Hret).
  vm_compute in Hrun. injection Hrun as <-. vm_compute in Hret. discriminate.
Qed.

(** C2, amended.  On [[A (100, 20); B (50, 15)]] with budget 120 the
    portfolio has exactly one line: B, 2 shares, cost 100, potential return
    100 * 15 / 100 = 15, total cost 100.  B is ranked first; A is then
    skipped because the 20 left are below its price. *)
Theorem example_portfolio :
  ∃ line,
    optimize_portfolio [asset_A; asset_B] 120 = Ok [line] ∧
    line_symbol line = "B" ∧ shares line = 2%Z ∧
    (cost line == 100)%Q ∧ (potential_return line == 15)%Q ∧
    (sum_costs [line] == 100)%Q ∧
    sorted [asset_A; asset_B] efficiency_key true = Ok [asset_B; asset_A] ∧
    ∃ r, foldM allocate ([], 120%Q) [asset_B] = Ok ([line], r) ∧
         (r == 20)%Q ∧ (r < current_price asset_A)%Q ∧
         allocate ([line], r) asset_A = Ok ([line], r).
Proof.
  eexists. split; [vm_compute; reflexivity|].
  split_and!; try reflexivity.
  eexists. split_and!; reflexivity.
Qed.













(** C7.  On an empty asset universe [optimize_portfolio] returns the empty
    portfolio and the single-asset ranking the empty list; neither
    raises.  This holds for every budget. *)
Theorem empty_universe_safe company_map analyze_stock period B :
  universe company_map analyze_stock period = [] →
  optimize_portfolio [] B = Ok [] ∧
  get_budget_optimized_stocks company_map analyze_stock B period = Ok ([], []) ∧
  rank_single company_map analyze_stock B period = Ok [].
Proof.
  intros Hempty.
  assert (∀ acc, foldM (consider analyze_stock B period) acc (company_map.*2)
                 = Ok acc) as Hloop.
  { unfold universe in Hempty. induction (company_map.*2) as [|sym syms IH];
      intros acc; [done|].
    csimpl in Hempty. cbn [foldM].
    destruct (analyze_stock sym period) as [s|] eqn:Hs; [done|].
    rewrite consider_none by done. by apply IH. }
  assert (get_budget_optimized_stocks company_map analyze_stock B period
          = Ok ([], [])) as Hrun.
  { unfold get_budget_optimized_stocks. by rewrite Hloop. }
  split_and!; [done..|]. unfold rank_single. by rewrite Hrun.
Qed.

Lemma empty_universe_safe_witness :
  universe example_map (λ _ _, None) "3mo" = [] ∧
  optimize_portfolio [] 120 = Ok [] ∧
  get_budget_optimized_stocks example_map (λ _ _, None) 120 "3mo" = Ok ([], []) ∧
  rank_single example_map (λ _ _, None) 120 "3mo" = Ok [].
Proof.
  assert (universe example_map (λ _ _, None) "3mo" = []) as Hempty by reflexivity.
  split; [exact Hempty|].
  exact (empty_universe_safe example_map (λ _ _, None) "3mo" 120 Hempty).
Defined.

(** C8.  Determinism.  Two invocations on the same asset list and budget,
    started in any two stores (the records may live at different
    addresses), end alike: both raise the same exception, or both return a
    list that holds the same values in the same order.  This holds for
    [optimize_portfolio] and for the single-asset ranking. *)
Theorem deterministic stocks B company_map analyze_stock period
    (h1 h2 : gmap loc object) (sl1 sl2 : loc) :
  stocks_at h1 sl1 stocks → stocks_at h2 sl2 stocks →
  same_outcome portfolio_at
    (Store.optimize_portfolio sl1 B h1) (Store.optimize_portfolio sl2 B h2) ∧
  same_outcome stocks_at
    (Store.rank_single company_map analyze_stock B period h1)
    (Store.rank_single company_map analyze_stock B period h2).
Proof.
  intros Hs1 Hs2. split.
  - destruct (optimize_portfolio_run h1 sl1 stocks B Hs1)
      as (h1' & res1 & -> & _ & Hres1).
    destruct (optimize_portfolio_run h2 sl2 stocks B Hs2)
      as (h2' & res2 & -> & _ & Hres2).
    unfold same_outcome. cbn [fst snd].
    destruct (optimize_portfolio stocks B) as [lines|e].
    + destruct Hres1 as (pl1 & items1 & -> & _ & Hpl1 & _ & Hitems1).
      destruct Hres2 as (pl2 & items2 & -> & _ & Hpl2 & _ & Hitems2).
      exists lines. split; eexists; by split.
    + by subst.
  - destruct (rank_single_run company_map analyze_stock h1 B period)
      as (h1' & res1 & -> & _ & Hres1).
    destruct (rank_single_run company_map analyze_stock h2 B period)
      as (h2' & res2 & -> & _ & Hres2).
    unfold same_outcome. cbn [fst snd].
    destruct (rank_single company_map analyze_stock B period) as [ranking|e].
    + destruct Hres1 as (l1 & -> & Hl1). destruct Hres2 as (l2 & -> & Hl2).
      by exists ranking.
    + by subst.
Qed.

Lemma deterministic_witness :
  stocks_at example_heap 3%positive [asset_A; asset_B] ∧
  stocks_at example_heap' 5%positive [asset_A; asset_B] ∧
  same_outcome portfolio_at
    (Store.optimize_portfolio 3%positive 120 example_heap)
    (Store.optimize_portfolio 5%positive 120 example_heap') ∧
  same_outcome stocks_at
    (Store.rank_single example_map example_scorer 120 "3mo" example_heap)
    (Store.rank_single example_map example_scorer 120 "3mo" example_heap').
Proof.
  assert (stocks_at example_heap 3%positive [asset_A; asset_B]) as Hs1.
  { exists [1; 2]%positive. split; [reflexivity|]. repeat constructor. }
  assert (stocks_at example_heap' 5%positive [asset_A; asset_B]) as Hs2.
  { exists [9; 4]%positive. split; [reflexivity|]. repeat constructor. }
  split_and!; [exact Hs1|exact Hs2|..];
    apply (deterministic [asset_A; asset_B] 120 example_map example_scorer "3mo"
             example_heap example_heap' 3%positive 5%positive Hs1 Hs2).
Defined.

(** C9.  [optimize_portfolio] does not modify its input.  Run on a list of
    stock dicts in any store, it leaves every object of that store as it
    was: the input list still holds the same records with the same values.
    When it returns, the portfolio and each of its lines are objects that
    did not exist before the call, hence distinct from the input list and
    its records. *)
Theorem optimize_portfolio_frame (h : gmap loc object) (sl : loc) stocks B :
  stocks_at h sl stocks →
  ∃ h' res,
    Store.optimize_portfolio sl B h = (h', res) ∧
    h ⊆ h' ∧
    stocks_at h' sl stocks ∧
    ∀ pl, res = Ok pl →
      h !! pl = None ∧
      ∃ items, h' !! pl = Some (PyList items) ∧
               Forall (λ y, h !! y = None ∧
                            ∃ line, h' !! y = Some (AllocationDict line)) items.
Proof.
  intros Hs.
  destruct (optimize_portfolio_run h sl stocks B Hs)
    as (h' & res & Hrun & Hsub & Hres).
  exists h', res. split_and!; [done..|by eapply stocks_at_weaken|].
  intros pl ->. destruct (optimize_portfolio stocks B) as [lines|e]; [|done].
  destruct Hres as (pl' & items & [= ->] & Hpl & Hpl' & Hnew & Hitems).
  split; [done|]. exists items. split; [done|].
  apply List.Forall_forall. intros y Hy. split.
  - by apply (proj1 (List.Forall_forall _ _) Hnew).
  - apply list_elem_of_In, list_elem_of_lookup in Hy as [i Hi].
    destruct (Forall2_lookup_l _ _ _ _ _ Hitems Hi) as (line & _ & Hline).
    by exists line.
Qed.

Lemma optimize_portfolio_frame_witness :
  stocks_at example_heap 3%positive [asset_A; asset_B] ∧
  ∃ h' res,
    Store.optimize_portfolio 3%positive 120 example_heap = (h', res) ∧
    example_heap ⊆ h' ∧
    stocks_at h' 3%positive [asset_A; asset_B] ∧
    ∀ pl, res = Ok pl →
      example_heap !! pl = None ∧
      ∃ items, h' !! pl = Some (PyList items) ∧
               Forall (λ y, example_heap !! y = None ∧
                            ∃ line, h' !! y = Some (AllocationDict line)) items.
Proof.
  assert (stocks_at example_heap 3%positive [asset_A; asset_B]) as Hs.
  { exists [1; 2]%positive. split; [reflexivity|]. repeat constructor. }
  split; [exact Hs|].
  exact (optimize_portfolio_frame example_heap 3%positive [asset_A; asset_B] 120 Hs).
Defined.
End Contract.

(** * Further properties of the allocator *)

Section Allocator.
Implicit Types (stocks order : list stock) (B r : Q) (s : stock).













End Allocator.

(** * Further properties of [get_budget_optimized_stocks] *)

Section Pipeline.
Variable company_map : list (string * string).
Variable analyze_stock : string → string → option stock.
Implicit Types (B : Q) (s d : stock) (period : string).




End Pipeline.





(** * [recommend_stocks] *)

Section RecommendFacts.
Variable company_map : list (string * string).
Variable analyze_stock : string → string → option stock.

Lemma performances_loop period (acc : list stock) (syms : list string) :
  foldM (λ stock_performances sym,
           match analyze_stock sym period with
           | Some analysis => mret (stock_performances ++ [analysis])
           | None => mret stock_performances
           end) acc syms
  = Ok (acc ++ omap (λ sym, analyze_stock sym period) syms).
Proof.
  revert acc. induction syms as [|sym syms IH]; intros acc.
  - csimpl. by rewrite app_nil_r.
  - cbn [foldM]. csimpl. destruct (analyze_stock sym period) as [s|].
    + cbn [mret result_ret mbind result_bind]. rewrite IH, <- app_assoc. done.
    + cbn [mret result_ret mbind result_bind]. apply IH.
Qed.

(** [recommend_stocks] never raises: it returns a slice of the ranking of
    the analysed stocks by [future_potential]. *)
Lemma recommend_stocks_spec n period :
  ∃ ranking,
    stable_sorted_desc future_potential
      (universe company_map analyze_stock period) ranking ∧
    recommend_stocks company_map analyze_stock n period = Ok (slice_to ranking n).
Proof.
  destruct (sorted_reverse_spec (λ x, Ok (future_potential x)) future_potential
              (universe company_map analyze_stock period))
    as (ranking & Hsort & Hspec); [done|].
  exists ranking. split; [done|].
  unfold recommend_stocks. rewrite performances_loop. cbn [mbind result_bind app].
  fold (universe company_map analyze_stock period). by rewrite Hsort.
Qed.

Lemma StronglySorted_app_cross {A : Type} (R : A → A → Prop) (l1 l2 : list A) a b :
  StronglySorted R (l1 ++ l2) → In a l1 → In b l2 → R a b.
Proof.
  induction l1 as [|x t IH]; simpl; intros Hs Ha Hb; [done|].
  apply StronglySorted_inv in Hs as [Hs Hall]. destruct Ha as [->|Ha].
  - apply (proj1 (List.Forall_forall _ _) Hall). apply in_or_app. by right.
  - by apply IH.
Qed.

(** For a count [n >= 0], whatever the prices, [recommend_stocks] returns
    without raising the first [n] stocks of the ranking by
    [future_potential] (descending, ties in [company_map] order): at most
    [n] stocks, each with a potential at least that of every analysed stock
    left out. *)
Theorem recommend_stocks_top n period :
  (0 <= n)%Z →
  ∃ ranking,
    stable_sorted_desc future_potential
      (universe company_map analyze_stock period) ranking ∧
    recommend_stocks company_map analyze_stock n period
      = Ok (take (Z.to_nat n) ranking) ∧
    ∀ a b, In a (take (Z.to_nat n) ranking) → In b (drop (Z.to_nat n) ranking) →
           (future_potential b <= future_potential a)%Q.
Proof.
  intros Hn. destruct (recommend_stocks_spec n period) as (ranking & Hspec & Hrun).
  exists ranking. split_and!; [done| |].
  - rewrite Hrun. unfold slice_to. by destruct (Z.leb_spec 0 n); [|lia].
  - intros a b Ha Hb. destruct Hspec as [Hsorted _].
    rewrite <- (take_drop (Z.to_nat n) ranking) in Hsorted.
    exact (StronglySorted_app_cross _ _ _ a b Hsorted Ha Hb).
Qed.

(** A negative count is not rejected: by the slice [sorted_stocks[:n]] it
    drops the [-n] stocks of lowest potential and returns all the others. *)
Theorem recommend_stocks_negative n period :
  (n < 0)%Z →
  ∃ ranking,
    stable_sorted_desc future_potential
      (universe company_map analyze_stock period) ranking ∧
    recommend_stocks company_map analyze_stock n period
      = Ok (take (length ranking - Z.to_nat (- n)) ranking).
Proof.
  intros Hn. destruct (recommend_stocks_spec n period) as (ranking & Hspec & Hrun).
  exists ranking. split; [done|]. rewrite Hrun. unfold slice_to.
  destruct (Z.leb_spec 0 n); [lia|]. do 2 f_equal. lia.
Qed.
End RecommendFacts.

Lemma recommend_stocks_top_witness :
  (0 <= 1)%Z ∧
  ∃ ranking,
    stable_sorted_desc future_potential
      (universe doubled_map example_scorer "3mo") ranking ∧
    recommend_stocks doubled_map example_scorer 1 "3mo"
      = Ok (take (Z.to_nat 1) ranking) ∧
    ∀ a b, In a (take (Z.to_nat 1) ranking) → In b (drop (Z.to_nat 1) ranking) →
           (future_potential b <= future_potential a)%Q.
Proof.
  assert (0 <= 1)%Z as Hn by lia.
  split; [exact Hn|].
  exact (recommend_stocks_top doubled_map example_scorer 1 "3mo" Hn).
Defined.

Lemma recommend_stocks_negative_witness :
  (-1 < 0)%Z ∧
  ∃ ranking,
    stable_sorted_desc future_potential
      (universe doubled_map example_scorer "3mo") ranking ∧
    recommend_stocks doubled_map example_scorer (-1) "3mo"
      = Ok (take (length ranking - Z.to_nat (- -1)) ranking).
Proof.
  assert (-1 < 0)%Z as Hn by lia.
  split; [exact Hn|].
  exact (recommend_stocks_negative doubled_map example_scorer (-1) "3mo" Hn).
Defined.

(** * [calculate_risk_level] *)

Section Risk.
Implicit Types (a : indicators).

Lemma Qlt_bool_false (x y : Q) : Qlt_bool x y = false ↔ (y <= x)%Q.
Proof.
  unfold Qlt_bool. rewrite negb_false_iff. apply Qle_bool_iff.
Qed.

(** Case analysis of every comparison the method makes. *)
Ltac risk_cases a :=
  unfold calculate_risk_level; cbn [overall factors volatility_level rsi_level
                                    trend_level];
  destruct (Qlt_bool (volatility a) 0.15) eqn:Hv1;
  destruct (Qlt_bool 0.25 (volatility a)) eqn:Hv2;
  destruct (Qlt_bool 70 (rsi a)) eqn:Hr1;
  destruct (Qlt_bool (rsi a) 30) eqn:Hr2;
  destruct (Qlt_bool 60 (rsi a)) eqn:Hr3;
  destruct (Qlt_bool (rsi a) 40) eqn:Hr4;
  rewrite ?Qlt_bool_iff, ?Qlt_bool_false in *;
  cbn [orb risk_scores].

(** A downward price trend never gives an overall [Low] risk; with any
    other trend the overall risk is [High] exactly when the volatility is
    above 0.25 and the RSI is above 70 or below 30. *)
Theorem overall_risk_by_trend a :
  (price_trend a = "Downward" → overall (calculate_risk_level a) ≠ Low) ∧
  (price_trend a ≠ "Downward" →
   (overall (calculate_risk_level a) = High ↔
    (0.25 < volatility a)%Q ∧ ((70 < rsi a)%Q ∨ (rsi a < 30)%Q))).
Proof.
  split.
  - intros Ht. risk_cases a; rewrite Ht; vm_compute; discriminate.
  - intros Hne. apply String.eqb_neq in Hne.
    risk_cases a; rewrite Hne; try lra;
      match goal with
      | |- ?l = High ↔ _ => let v := eval vm_compute in l in change l with v
      end;
      (split;
       [intros H; first [discriminate H
                        |split; [lra|first [left; lra|right; lra]]]
       |intros [? [?|?]]; first [reflexivity|exfalso; lra]]).
Qed.

(** The overall risk never decreases when the volatility grows, the RSI and
    the trend being the same. *)
Theorem overall_risk_monotone a1 a2 :
  rsi a1 = rsi a2 → price_trend a1 = price_trend a2 →
  (volatility a1 <= volatility a2)%Q →
  (risk_scores (overall (calculate_risk_level a1))
   <= risk_scores (overall (calculate_risk_level a2)))%Z.
Proof.
  destruct a1 as [v1 r t], a2 as [v2 r' t']. cbn [rsi price_trend volatility].
  intros <- <- Hv.
  unfold calculate_risk_level.
  cbn [overall factors volatility_level rsi_level trend_level volatility rsi
       price_trend].
  destruct (Qlt_bool v1 0.15) eqn:Hv1; destruct (Qlt_bool 0.25 v1) eqn:Hv2;
  destruct (Qlt_bool v2 0.15) eqn:Hv3; destruct (Qlt_bool 0.25 v2) eqn:Hv4;
  rewrite ?Qlt_bool_iff, ?Qlt_bool_false in *; try lra;
  destruct (Qlt_bool 70 r || Qlt_bool r 30);
  destruct (Qlt_bool 60 r || Qlt_bool r 40);
  destruct (String.eqb t "Downward"); vm_compute; discriminate.
Qed.
End Risk.

Lemma overall_risk_monotone_witness :
  rsi (mkIndicators 0.10 50 "Upward") = rsi (mkIndicators 0.30 50 "Upward") ∧
  price_trend (mkIndicators 0.10 50 "Upward")
    = price_trend (mkIndicators 0.30 50 "Upward") ∧
  (volatility (mkIndicators 0.10 50 "Upward")
   <= volatility (mkIndicators 0.30 50 "Upward"))%Q ∧
  (risk_scores (overall (calculate_risk_level (mkIndicators 0.10 50 "Upward")))
   <= risk_scores (overall (calculate_risk_level (mkIndicators 0.30 50 "Upward"))))%Z.
Proof.
  assert (rsi (mkIndicators 0.10 50 "Upward") = rsi (mkIndicators 0.30 50 "Upward"))
    as Hr by reflexivity.
  assert (price_trend (mkIndicators 0.10 50 "Upward")
          = price_trend (mkIndicators 0.30 50 "Upward")) as Ht by reflexivity.
  assert (volatility (mkIndicators 0.10 50 "Upward")
          <= volatility (mkIndicators 0.30 50 "Upward"))%Q as Hv
    by (intros H; discriminate H).
  split_and!; [exact Hr|exact Ht|exact Hv|].
  exact (overall_risk_monotone _ _ Hr Ht Hv).
Defined.

Lemma overall_risk_by_trend_witness :
  overall (calculate_risk_level (mkIndicators 0.10 50 "Downward")) ≠ Low ∧
  overall (calculate_risk_level (mkIndicators 0.30 80 "Upward")) = High.
Proof.
  split.
  - apply (proj1 (overall_risk_by_trend (mkIndicators 0.10 50 "Downward"))).
    reflexivity.
  - apply (proj2 (overall_risk_by_trend (mkIndicators 0.30 80 "Upward"))).
    + discriminate.
    + split; [reflexivity|left; reflexivity].
Defined.

(** * [detect_temporal_context] *)

Section TemporalFacts.
Variable lower : string → string.

Lemma prefix_spec (s t : string) :
  String.prefix s t = true ↔ ∃ post, t = s +:+ post.
Proof.
  revert t. induction s as [|a s IH]; intros t.
  - destruct t; simpl; split; eauto.
  - destruct t as [|b t]; simpl.
    + split; [done|]. by intros [post H].
    + destruct (Ascii.ascii_dec a b) as [->|Hne].
      * rewrite IH. split; intros [post H]; exists post; [by rewrite H|].
        by injection H.
      * split; [done|]. intros [post H]. injection H as H1 H2. done.
Qed.

(** [contains] is the substring test. *)
Lemma contains_spec (s t : string) : contains s t = true ↔ occurs_in s t.
Proof.
  unfold occurs_in. induction t as [|b t IH]; cbn [contains].
  - rewrite prefix_spec. split.
    + intros [post H]. by exists "", post.
    + intros (pre & post & H). destruct pre; [by exists post|done].
  - rewrite orb_true_iff, IH, prefix_spec. split.
    + intros [[post H]|(pre & post & H)].
      * by exists "", post.
      * exists (String b pre), post. simpl. by rewrite H.
    + intros (pre & post & H). destruct pre as [|c pre].
      * left. by exists post.
      * right. simpl in H. injection H as _ H. by exists pre, post.
Qed.

Lemma keyword_hit (keywords : list string) (q : string) :
  existsb (λ keyword, contains keyword q) keywords = true ↔
  ∃ keyword, In keyword keywords ∧ occurs_in keyword q.
Proof.
  rewrite existsb_exists. split; intros (k & Hk & H); exists k;
    (split; [done|]); by apply contains_spec.
Qed.

(** A query whose lowered text contains one of the 'past' keywords is
    classified 'past', whatever 'present' or 'future' keywords it also
    contains; and only such queries are. *)
Theorem past_takes_precedence (query : string) :
  detect_temporal_context lower query = "past" ↔
  ∃ keyword, In keyword past_keywords ∧ occurs_in keyword (lower query).
Proof.
  rewrite <- keyword_hit. unfold detect_temporal_context, temporal_map.
  cbn [List.find snd].
  destruct (existsb _ past_keywords); [done|].
  destruct (existsb _ present_keywords); [done|].
  by destruct (existsb _ future_keywords).
Qed.

(** The result is always one of the three contexts, and it is 'future'
    exactly when the lowered query contains no 'past' and no 'present'
    keyword: the 'future' keywords have no effect on the result. *)
Theorem future_is_the_default (query : string) :
  In (detect_temporal_context lower query) ["past"; "present"; "future"] ∧
  (detect_temporal_context lower query = "future" ↔
   ¬ ∃ keyword, In keyword (past_keywords ++ present_keywords) ∧
                occurs_in keyword (lower query)).
Proof.
  assert ((∃ keyword, In keyword (past_keywords ++ present_keywords) ∧
                      occurs_in keyword (lower query)) ↔
          existsb (λ k, contains k (lower query)) past_keywords = true ∨
          existsb (λ k, contains k (lower query)) present_keywords = true) as ->.
  { rewrite !keyword_hit. split.
    - intros (k & Hk & H). apply in_app_or in Hk as [Hk|Hk]; [left|right]; eauto.
    - intros [(k & Hk & H)|(k & Hk & H)]; exists k;
        (split; [apply in_or_app; auto|done]). }
  unfold detect_temporal_context, temporal_map. cbn [List.find snd].
  destruct (existsb _ past_keywords).
  { split; [by left|]. split; [done|]. intros H. exfalso. apply H. by left. }
  destruct (existsb _ present_keywords).
  { split; [right; by left|]. split; [done|]. intros H. exfalso. apply H. by right. }
  assert (In "future" ["past"; "present"; "future"]) as Hin by (right; right; by left).
  destruct (existsb _ future_keywords);
    (split; [exact Hin|]); (split; [|done]); by intros _ [|].
Qed.
End TemporalFacts.

(** * [load_company_data] and [find_company_in_query] *)

Section DictFacts.
Context {V : Type}.
Implicit Types (d : list (string * V)) (k : string) (v : V).

Lemma dict_get_set_eq d k v : dict_get (dict_set d k v) k = Some v.
Proof.
  induction d as [|[k' v'] t IH]; simpl.
  - by rewrite String.eqb_refl.
  - destruct (String.eqb k' k) eqn:E; simpl; by rewrite E.
Qed.

Lemma dict_set_keeps d k v k' :
  is_Some (dict_get d k') → is_Some (dict_get (dict_set d k v) k').
Proof.
  induction d as [|[k0 v0] t IH]; simpl; [by intros [? ?]|].
  destruct (String.eqb k0 k) eqn:E; simpl;
    destruct (String.eqb k0 k'); eauto.
Qed.

Lemma dict_set_In d k v k' v' :
  In (k', v') (dict_set d k v) → In (k', v') d ∨ (k' = k ∧ v' = v).
Proof.
  induction d as [|[k0 v0] t IH]; simpl.
  - intros [[= <- <-]|[]]. by right.
  - destruct (String.eqb k0 k) eqn:E; simpl.
    + apply String.eqb_eq in E as ->. intros [[= <- <-]|H]; [by right|].
      left. by right.
    + intros [H|H]; [left; by left|].
      destruct (IH H) as [?|?]; [left; by right|by right].
Qed.

Lemma dict_get_key d k : In k (d.*1) → is_Some (dict_get d k).
Proof.
  induction d as [|[k0 v0] t IH]; csimpl; [done|].
  destruct (String.eqb k0 k) eqn:E; [by eauto|].
  intros [->|H]; [|by apply IH]. by rewrite String.eqb_refl in E.
Qed.

Lemma dict_get_In d k v : dict_get d k = Some v → ∃ k', In (k', v) d.
Proof.
  induction d as [|[k0 v0] t IH]; simpl; [done|].
  destruct (String.eqb k0 k).
  - intros [= ->]. exists k0. by left.
  - intros H. destruct (IH H) as [k' Hk']. exists k'. by right.
Qed.
End DictFacts.

Section LoaderFacts.
Variable strip lower : string → string.
Variable split : string → list string.
Implicit Types (data : company_data) (rows : list (option string * option string)).

Local Abbreviation consistent := (consistent lower).

Lemma add_variations_values name_parts company_name nv variation company :
  In (variation, company) (add_variations name_parts company_name nv) →
  In (variation, company) nv ∨ company = company_name.
Proof.
  unfold add_variations. generalize (seq 0 (length name_parts)). intros idx.
  revert nv. induction idx as [|i idx IH]; intros nv; simpl; [by left|].
  intros H. apply IH in H as [H|H]; [|by right].
  revert nv H. generalize (seq (i + 1) (length name_parts - i)). intros js.
  induction js as [|j js IHj]; intros nv; simpl; [by left|].
  intros H. apply IHj in H as [H|H]; [|by right].
  apply dict_set_In in H as [H|[_ H]]; [by left|by right].
Qed.

Lemma load_row_consistent data row data' :
  consistent data → load_row strip lower split data row = Some data' →
  consistent data'.
Proof.
  intros [Hnv Hcm]. unfold load_row.
  destruct row as [[name|] [sym|]]; simpl; try done.
  intros [= <-]. split; cbn [company_map_of name_variations_of].
  - intros variation company H.
    apply dict_set_In in H as [H|[_ E]].
    + apply add_variations_values in H as [H|E].
      * apply dict_set_keeps, dict_set_keeps. by eapply Hnv.
      * subst company. apply dict_set_keeps. rewrite dict_get_set_eq. by eauto.
    + subst company. apply dict_set_keeps. rewrite dict_get_set_eq. by eauto.
  - intros k v H.
    apply dict_set_In in H as [H|[_ E]]; [|by eauto].
    apply dict_set_In in H as [H|[_ E]]; [|by eauto].
    by eapply Hcm.
Qed.

Lemma load_rows_consistent data rows data' :
  consistent data → load_rows strip lower split data rows = Some data' →
  consistent data'.
Proof.
  revert data. induction rows as [|row rows IH]; intros data Hc; simpl.
  - by intros [= <-].
  - destruct (load_row strip lower split data row) as [data1|] eqn:E; simpl; [|done].
    apply IH. by eapply load_row_consistent.
Qed.

Lemma load_company_data_consistent csv :
  consistent (load_company_data strip lower split csv).
Proof.
  assert (consistent no_companies) as H0 by (split; intros ??; simpl; done).
  unfold load_company_data. destruct csv as [rows|]; simpl; [|done].
  destruct (load_rows strip lower split no_companies rows) as [data|] eqn:E; [|done].
  by eapply load_rows_consistent.
Qed.

Lemma load_rows_fails data rows :
  Exists (λ row, row.1 = None ∨ row.2 = None) rows →
  load_rows strip lower split data rows = None.
Proof.
  intros Hbad. revert data. induction Hbad as [row rows Hrow|row rows Hbad IH];
    intros data; simpl.
  - unfold load_row. destruct row as [[name|] [sym|]]; simpl in *;
      by destruct Hrow.
  - destruct (load_row strip lower split data row); simpl; [apply IH|done].
Qed.

(** All or nothing.  If any row of the CSV has a cell that is not a string,
    the three dicts end up empty: the rows read before it are discarded as
    well. *)
Theorem load_company_data_all_or_nothing rows :
  Exists (λ row, row.1 = None ∨ row.2 = None) rows →
  load_company_data strip lower split (Some rows) = no_companies.
Proof.
  intros Hbad. unfold load_company_data. simpl. by rewrite load_rows_fails.
Qed.

Lemma load_row_keys data name sym :
  ∃ data',
    load_row strip lower split data (Some name, Some sym) = Some data' ∧
    (∀ k, is_Some (dict_get (company_map_of data) k) →
          is_Some (dict_get (company_map_of data') k)) ∧
    is_Some (dict_get (company_map_of data') (lower (strip name))) ∧
    dict_get (company_map_of data') (lower (strip sym))
      = Some (strip sym +:+ ".NS").
Proof.
  eexists. split; [reflexivity|]. cbn [company_map_of]. split_and!.
  - intros k Hk. by apply dict_set_keeps, dict_set_keeps.
  - apply dict_set_keeps. rewrite dict_get_set_eq. by eauto.
  - apply dict_get_set_eq.
Qed.

Lemma load_rows_keys data rows :
  Forall (λ row, is_Some row.1 ∧ is_Some row.2) rows →
  ∃ data',
    load_rows strip lower split data rows = Some data' ∧
    (∀ k, is_Some (dict_get (company_map_of data) k) →
          is_Some (dict_get (company_map_of data') k)) ∧
    (∀ name sym, In (Some name, Some sym) rows →
       is_Some (dict_get (company_map_of data') (lower (strip name))) ∧
       is_Some (dict_get (company_map_of data') (lower (strip sym)))).
Proof.
  intros Hrows. revert data.
  induction Hrows as [|[r1 r2] rows [H1 H2] Hrows IH];
    intros data; cbn [load_rows].
  - exists data. by split_and!.
  - simpl in H1, H2. destruct H1 as [name E1], H2 as [sym E2]. subst r1 r2.
    destruct (load_row_keys data name sym) as (data1 & -> & Hkeep1 & Hname & Hsym).
    cbn [mbind option_bind].
    destruct (IH data1) as (data' & -> & Hkeep & Hrest).
    exists data'. split_and!; [done|by eauto|].
    intros name' sym' [[= -> ->]|Hin]; [|by apply Hrest].
    split; apply Hkeep; [done|]. rewrite Hsym. by eauto.
Qed.

(** When every cell is a string, no company is lost: after loading, the
    lowered name and the lowered symbol of every row are keys of
    [company_map]. *)
Theorem load_company_data_keys rows :
  Forall (λ row, is_Some row.1 ∧ is_Some row.2) rows →
  ∀ name sym, In (Some name, Some sym) rows →
    is_Some (dict_get (company_map_of (load_company_data strip lower split (Some rows)))
                      (lower (strip name))) ∧
    is_Some (dict_get (company_map_of (load_company_data strip lower split (Some rows)))
                      (lower (strip sym))).
Proof.
  intros Hrows name sym Hin.
  destruct (load_rows_keys no_companies rows Hrows) as (data & Hload & _ & Hkeys).
  unfold load_company_data. cbn [mbind option_bind]. rewrite Hload.
  by apply Hkeys.
Qed.

Variable extractOne : string → list string → option (string * Z).

Lemma find_company_in_query_consistent data query :
  consistent data →
  (∀ q choices choice score,
     extractOne q choices = Some (choice, score) → In choice choices) →
  ∃ r, find_company_in_query lower extractOne data query = Ok r ∧
       ∀ symbol, r = Some symbol → ∃ x, symbol = x +:+ ".NS".
Proof.
  intros [Hnv Hcm] Hchoice. unfold find_company_in_query.
  destruct (List.find _ common_symbols) as [[k ns]|] eqn:Hcommon.
  { eexists. split; [done|]. intros symbol [= <-].
    apply find_some in Hcommon as [Hin _]. simpl in Hin.
    destruct Hin as [[= _ <-]|[[= _ <-]|[[= _ <-]|[]]]];
      [by exists "HDFCBANK"|by exists "SBIN"|by exists "BAJFINANCE"]. }
  assert (∀ k, is_Some (dict_get (company_map_of data) k) →
               ∃ r, match dict_get (company_map_of data) k with
                    | Some symbol => Ok (Some symbol)
                    | None => Raise KeyError
                    end = Ok r ∧
                    ∀ symbol, r = Some symbol → ∃ x, symbol = x +:+ ".NS") as Hget.
  { intros k [v Hv]. rewrite Hv. eexists. split; [done|]. intros symbol [= <-].
    apply dict_get_In in Hv as [k' Hk']. by eapply Hcm. }
  destruct (extractOne (lower query) (company_map_of data).*1)
    as [[choice score]|] eqn:Hbest.
  - destruct (80 <? score)%Z.
    + apply Hget, dict_get_key. by eapply Hchoice.
    + destruct (List.find _ (name_variations_of data)) as [[variation company]|]
        eqn:Hvar.
      * apply Hget. apply find_some in Hvar as [Hin _]. by eapply Hnv.
      * by eexists.
  - destruct (List.find _ (name_variations_of data)) as [[variation company]|]
      eqn:Hvar.
    + apply Hget. apply find_some in Hvar as [Hin _]. by eapply Hnv.
    + by eexists.
Qed.

(** On the dicts that [load_company_data] builds, whatever the CSV, a
    matcher that proposes one of the choices it was given never makes
    [find_company_in_query] raise [KeyError]; the result is [None] or a
    symbol that ends in [".NS"]. *)
Theorem find_company_in_query_safe csv query :
  (∀ q choices choice score,
     extractOne q choices = Some (choice, score) → In choice choices) →
  ∃ r, find_company_in_query lower extractOne
         (load_company_data strip lower split csv) query = Ok r ∧
       ∀ symbol, r = Some symbol → ∃ x, symbol = x +:+ ".NS".
Proof.
  intros Hchoice. apply find_company_in_query_consistent; [|done].
  apply load_company_data_consistent.
Qed.
End LoaderFacts.

Lemma load_company_data_all_or_nothing_witness :
  Exists (λ row : option string * option string, row.1 = None ∨ row.2 = None)
         broken_csv ∧
  load_company_data id id (λ s, [s]) (Some broken_csv) = no_companies.
Proof.
  assert (Exists (λ row : option string * option string,
                    row.1 = None ∨ row.2 = None) broken_csv) as Hbad.
  { apply Exists_cons_tl, Exists_cons_hd. by right. }
  split; [exact Hbad|].
  exact (load_company_data_all_or_nothing id id (λ s, [s]) broken_csv Hbad).
Defined.

Lemma load_company_data_keys_witness :
  Forall (λ row : option string * option string, is_Some row.1 ∧ is_Some row.2)
         example_csv ∧
  In (Some "beta ltd", Some "B") example_csv ∧
  is_Some (dict_get (company_map_of (load_company_data id id (λ s, [s])
                                       (Some example_csv)))
                    (id (id "beta ltd"))) ∧
  is_Some (dict_get (company_map_of (load_company_data id id (λ s, [s])
                                       (Some example_csv)))
                    (id (id "B"))).
Proof.
  assert (Forall (λ row : option string * option string,
                    is_Some row.1 ∧ is_Some row.2) example_csv) as Hrows.
  { repeat constructor; by eexists. }
  assert (In (Some "beta ltd", Some "B") example_csv) as Hin by (right; by left).
  split_and!; [exact Hrows|exact Hin|..];
    apply (load_company_data_keys id id (λ s, [s]) example_csv Hrows
             "beta ltd" "B" Hin).
Defined.

Lemma first_choice_among q choices choice score :
  first_choice q choices = Some (choice, score) → In choice choices.
Proof.
  unfold first_choice. destruct choices as [|c t]; [done|].
  intros [= <- _]. by left.
Qed.

Lemma find_company_in_query_safe_witness :
  (∀ q choices choice score,
     first_choice q choices = Some (choice, score) → In choice choices) ∧
  ∃ r, find_company_in_query id first_choice
         (load_company_data id id (λ s, [s]) (Some example_csv)) "beta" = Ok r ∧
       ∀ symbol, r = Some symbol → ∃ x, symbol = x +:+ ".NS".
Proof.
  split; [exact first_choice_among|].
  exact (find_company_in_query_safe id id (λ s, [s]) first_choice
           (Some example_csv) "beta" first_choice_among).
Defined.

(** * The portfolio summary of [process_query] *)

Section Summary.
Variable company_map : list (string * string).
Variable analyze_stock : string → string → option stock.
Implicit Types (B r lo hi : Q) (s : stock).





End Summary.

